(** * Mouse state codec and transition analysis

    A shallow embedding of

    - [mousetracking/algorithm/objects/mouse.py]: [state_to_int],
      [int_to_state], [query_state], [test_state_conversion] and the
      class [MouseTrack] ([__init__], [set_state], [query_state]);
    - [mousetracking/algorithm/analyzer.py]: [get_mouse_state_transitions]
      and [get_mouse_transition_graph];
    - [video/utils.py]: [contiguous_regions].

    Python dictionaries are finite maps ([gmap]), numpy integer arrays are
    lists of [Z], exceptions are the [Raise] branch of a result type, and
    times are exact rationals ([Q]): the rounding of machine floats is not
    modelled, only what numpy does on a division by zero. *)

From Stdlib Require Import ZArith QArith.
From stdpp Require Import gmap strings list fin_maps.

Local Open Scope Z_scope.

(** ** Python values, exceptions and results *)

Module Py.

(** The values a state dictionary holds. *)
Inductive pyval :=
| VNone
| VBool (b : bool)
| VInt (z : Z)
| VStr (s : string).

#[global] Instance pyval_eq_dec : EqDecision pyval.
Proof. solve_decision. Defined.

(** [v == False] and [v == True]: a Python [bool] is an [int], so [0] and
    [1] compare equal to [False] and [True]; [None] and strings do not. *)
Definition eq_bool (v : pyval) (b : bool) : bool :=
  match v with
  | VBool b' => Bool.eqb b' b
  | VInt z => z =? (if b then 1 else 0)
  | VNone | VStr _ => false
  end.

(** [v == 'text'] *)
Definition eq_str (v : pyval) (s : string) : bool :=
  match v with
  | VStr s' => bool_decide (s' = s)
  | _ => false
  end.

(** What a [RuntimeError] of the two modules reports. *)
Inductive runtime_error :=
| CannotInterpret (leftover : gmap string pyval)
    (* 'Some state information cannot be interpreted: %s' % state *)
| TrajectoryMissing.
    (* 'The mouse trajectory has to be determined before ...' *)

Inductive exception :=
| KeyError (key : string)
| KeyErrorCode (code : Z)
| IndexError (index : nat)
| ValueError (query : string)
| RuntimeError (what : runtime_error)
| AssertionError (value : Z).

Inductive result (A : Type) :=
| Ok (a : A)
| Raise (e : exception).
Arguments Ok {A} a.
Arguments Raise {A} e.

#[global] Instance result_ret : MRet result := @Ok.
#[global] Instance result_bind : MBind result := λ A B f m,
  match m with
  | Ok a => f a
  | Raise e => Raise e
  end.

(** [d.pop(key, None)] *)
Definition pop_default (key : string) (d : gmap string pyval)
    : pyval * gmap string pyval :=
  (default VNone (d !! key), delete key d).

(** [d.pop(key)]: raises [KeyError] when the key is missing. *)
Definition pop (key : string) (d : gmap string pyval)
  : result (pyval * gmap string pyval) :=
  match d !! key with
  | Some v => Ok (v, delete key d)
  | None => Raise (KeyError key)
  end.

(** [d.get(key)] *)
Definition get (key : string) (d : gmap string pyval) : pyval :=
  default VNone (d !! key).

(** [a[k]] on an array. *)
Definition index {A} (a : list A) (k : nat) : result A :=
  match a !! k with
  | Some x => Ok x
  | None => Raise (IndexError k)
  end.

End Py.

Import Py.

(** ** [objects/mouse.py] *)

Module Mouse.

Definition VALID_STATES : list Z := [0; 10; 11; 12; 13; 20; 21].

(** The branches of [state_to_int], up to the final check: the value
    computed and what is left of the dictionary. *)
Definition interpret_state (state : gmap string pyval)
  : result (Z * gmap string pyval) :=
  let value := 0 in
  let '(underground, state) := pop_default "underground" state in
  if eq_bool underground false then
    let value := value + 10 in
    '(location, state) ← pop "location" state;
    if eq_str location "air" then Ok (value + 1, state)
    else if eq_str location "hill" then Ok (value + 2, state)
    else if eq_str location "valley" then Ok (value + 3, state)
    else Ok (value, <["location" := location]> state)
  else if eq_bool underground true then
    let value := value + 20 in
    if eq_str (get "location" state) "burrow" then
      '(_, state) ← pop "location" state;
      Ok (value + 1, state)
    else Ok (value, state)
  else Ok (value, state).

(** calculate the integer representing the mouse state *)
Definition state_to_int (state : gmap string pyval) : result Z :=
  '(value, state) ← interpret_state state;
  if decide (state = ∅) then Ok value
  else Raise (RuntimeError (CannotInterpret state)).

(** reconstruct the state dictionary from an integer *)
Definition int_to_state (value : Z) : gmap string pyval :=
  let state : gmap string pyval := ∅ in
  let value_loc := value `mod` 10 in
  if (10 <=? value_loc) && (value_loc <? 20) then
    let state := <["underground" := VBool false]> state in
    if value_loc =? 11 then <["location" := VStr "air"]> state
    else if value_loc =? 12 then <["location" := VStr "hill"]> state
    else if value_loc =? 13 then <["location" := VStr "valley"]> state
    else state
  else if (20 <=? value_loc) && (value_loc <? 30) then
    let state := <["underground" := VBool true]> state in
    if value_loc =? 21 then <["location" := VStr "burrow"]> state
    else state
  else state.

(** numpy's elementwise comparisons and [&] on arrays *)
Definition np_le_l (c : Z) (a : list Z) : list bool := (λ x, c <=? x) <$> a.
Definition np_lt_r (a : list Z) (c : Z) : list bool := (λ x, x <? c) <$> a.
Definition np_eq (a : list Z) (c : Z) : list bool := (λ x, x =? c) <$> a.
Definition np_and (a b : list bool) : list bool := zip_with andb a b.

(** returns a boolean array where query is True *)
Definition query_state (states : list Z) (query : string)
  : result (list bool) :=
  if bool_decide (query = "underground") then
    Ok (np_and (np_le_l 10 states) (np_lt_r states 20))
  else if bool_decide (query = "in_air") then Ok (np_eq states 11)
  else if bool_decide (query = "on_hill") then Ok (np_eq states 12)
  else if bool_decide (query = "in_valley") then Ok (np_eq states 13)
  else if bool_decide (query = "underground") then
    Ok (np_and (np_le_l 20 states) (np_lt_r states 30))
  else if bool_decide (query = "in_burrow") then Ok (np_eq states 21)
  else Raise (ValueError query).

(** The body of the loop of [test_state_conversion] at one value. *)
Definition test_state_conversion_at (value : Z) : result unit :=
  let state := int_to_state value in
  if decide (state = ∅) then Ok tt
  else
    v ← state_to_int state;
    if decide (value = v) then Ok tt else Raise (AssertionError value).

(** simple test function for the state conversion:
    [for value in xrange(0, 100)] *)
Definition test_state_conversion : result unit :=
  foldl (λ acc value, _ ← acc; test_state_conversion_at value)
        (Ok tt) (Z.of_nat <$> seq 0 100).

End Mouse.

(** ** [objects/mouse.py]: the class [MouseTrack] *)

Module MouseTrack.

Import Mouse.

(** The object: [self.pos], the trajectory, and [self.states], the array
    of state codes. *)
Record track := {
  pos : list (Q * Q);
  states : list Z
}.

(** [MouseTrack(trajectory, states=None)]: without states the array is
    [np.zeros(len(trajectory), np.int)]. *)
Definition init (trajectory : list (Q * Q)) (states : option (list Z))
  : track :=
  {| pos := trajectory;
     states := match states with
               | Some states => states
               | None => replicate (length trajectory) 0
               end |}.

(** [a[i] = v] on a numpy array: an index in [-len(a), 0) counts from the
    end, and an index outside [-len(a), len(a)) raises [IndexError] (the
    exception carries the magnitude of the index). *)
Definition np_setitem (a : list Z) (i : Z) (v : Z) : result (list Z) :=
  let n := Z.of_nat (length a) in
  if (0 <=? i) && (i <? n) then Ok (<[Z.to_nat i := v]> a)
  else if (- n <=? i) && (i <? 0) then Ok (<[Z.to_nat (n + i) := v]> a)
  else Raise (IndexError (Z.abs_nat i)).

(** [self.states[frame_id] = state_to_int(state)]: the right-hand side is
    evaluated first. *)
Definition set_state (self : track) (frame_id : Z)
    (state : gmap string pyval) : result track :=
  value ← state_to_int state;
  states ← np_setitem (states self) frame_id value;
  Ok {| pos := pos self; states := states |}.

(** [self.query_state(query)] *)
Definition query_state (self : track) (query : string)
  : result (list bool) :=
  Mouse.query_state (states self) query.

End MouseTrack.

(** ** [analyzer.py] *)

Module Analyzer.

(** A numpy float as far as the rate needs it: a finite value, an
    infinity (what a division of a non-zero value by zero gives, with a
    warning and no exception) or not-a-number. *)
Inductive np_float :=
| Finite (q : Q)
| Inf
| NaN.

(** [x < y] on rationals, as a boolean *)
Definition Qltb (x y : Q) : bool :=
  Qnum x * QDen y <? Qnum y * QDen x.

(** [sum(lengths)]: a left fold from [0] *)
Definition py_sum (lengths : list Q) : Q := foldl Qplus 0%Q lengths.

(** [np.mean(lengths)]: the sum over the number of items; numpy gives
    [nan] (and a warning) on an empty list. *)
Definition np_mean (lengths : list Q) : np_float :=
  match lengths with
  | [] => NaN
  | _ => Finite (py_sum lengths / inject_Z (Z.of_nat (length lengths)))%Q
  end.

(** [1/x] for a numpy float [x] *)
Definition np_one_over (x : np_float) : np_float :=
  match x with
  | Finite q => if Qeq_bool q 0 then Inf else Finite (1 / q)%Q
  | Inf => Finite 0
  | NaN => NaN
  end.

(** [np.diff(a)]: [a[1:] - a[:-1]] *)
Definition np_diff (a : list Z) : list Z :=
  zip_with Z.sub (drop 1 a) (take (length a - 1) a).

(** [np.nonzero(b)[0]]: the indices where [b] holds, counted from [i] *)
Fixpoint np_nonzero_from (i : nat) (b : list bool) : list nat :=
  match b with
  | [] => []
  | x :: b' =>
      if x then i :: np_nonzero_from (S i) b' else np_nonzero_from (S i) b'
  end.

Definition np_nonzero (b : list bool) : list nat := np_nonzero_from 0 b.

(** [np.nonzero(np.diff(mouse_state) != 0)[0]] *)
Definition change_points (mouse_state : list Z) : list nat :=
  np_nonzero ((λ d, negb (d =? 0)) <$> np_diff mouse_state).

(** The analyzer object: [self.data['pass2/mouse_trajectory'].states]
    ([None] when the key is missing from [self.data]) and
    [self.time_scale]. *)
Record analyzer := {
  mouse_trajectory_states : option (list Z);
  time_scale : Q
}.

(** A [MultiDiGraph]: every [add_edge] adds a new parallel edge; a node
    holds its [duration] attribute once [add_node] has set it. *)
Record edge := {
  edge_u : string;
  edge_v : string;
  edge_rate : np_float;
  edge_count : nat
}.

Record graph := {
  graph_nodes : gmap string (option Q);
  graph_edges : list edge
}.

Definition empty_graph : graph :=
  {| graph_nodes := ∅; graph_edges := [] |}.

(** [graph.add_edge(u, v, rate=rate, count=count)]: the end points become
    nodes when they are not yet. *)
Definition touch_node (n : string) (nodes : gmap string (option Q))
  : gmap string (option Q) :=
  match nodes !! n with
  | Some _ => nodes
  | None => <[n := None]> nodes
  end.

Definition add_edge (g : graph) (u v : string) (rate : np_float)
    (count : nat) : graph :=
  {| graph_nodes := touch_node v (touch_node u (graph_nodes g));
     graph_edges := graph_edges g ++
       [{| edge_u := u; edge_v := v;
           edge_rate := rate; edge_count := count |}] |}.

(** [graph.add_node(node, duration=duration)] *)
Definition add_node (g : graph) (node : string) (duration : Q) : graph :=
  {| graph_nodes := <[node := Some duration]> (graph_nodes g);
     graph_edges := graph_edges g |}.

Section WithStates.

(** [mouse.STATES], the table from state code to category name. The
    module [mouse.py] at hand does not define it: it is a parameter. *)
Variable STATES : gmap Z string.

(** [mouse.STATES.keys()] *)
Definition STATES_keys : list Z := (map_to_list STATES).*1.

(** [mouse.STATES[code]] *)
Definition STATES_get (code : Z) : result string :=
  match STATES !! code with
  | Some name => Ok name
  | None => Raise (KeyErrorCode code)
  end.

(** One round of the loop of [get_mouse_state_transitions] at the
    change point [k]; the accumulator is [(transitions, last_trans)]. *)
Definition transition_step (mouse_state : list Z) (time_scale : Q)
    (states : list Z) (len_threshold : Q)
    (acc : gmap (Z * Z) (list Q) * Z) (k : nat)
  : result (gmap (Z * Z) (list Q) * Z) :=
  let '(transitions, last_trans) := acc in
  a ← index mouse_state k;
  b ← index mouse_state (k + 1);
  let trans := (a, b) in
  let duration := (inject_Z (Z.of_nat k - last_trans) * time_scale)%Q in
  let transitions :=
    if bool_decide (trans.1 ∈ states) && bool_decide (trans.2 ∈ states)
       && Qltb len_threshold duration
    then <[trans := default [] (transitions !! trans) ++ [duration]]>
           transitions
    else transitions in
  Ok (transitions, Z.of_nat k).

Fixpoint transition_loop (mouse_state : list Z) (time_scale : Q)
    (states : list Z) (len_threshold : Q) (ks : list nat)
    (acc : gmap (Z * Z) (list Q) * Z)
  : result (gmap (Z * Z) (list Q) * Z) :=
  match ks with
  | [] => Ok acc
  | k :: ks' =>
      acc' ← transition_step mouse_state time_scale states
               len_threshold acc k;
      transition_loop mouse_state time_scale states len_threshold ks' acc'
  end.

(** returns the durations the mouse spends in each state before
    transitioning to another state; [states = None] and
    [len_threshold = 0] are the defaults of the keyword arguments. *)
Definition get_mouse_state_transitions (self : analyzer)
    (states : option (list Z)) (len_threshold : Q)
  : result (gmap (Z * Z) (list Q)) :=
  match mouse_trajectory_states self with
  | None => Raise (RuntimeError TrajectoryMissing)
  | Some mouse_state =>
      let states := default STATES_keys states in
      '(transitions, _) ←
        transition_loop mouse_state (time_scale self) states
          len_threshold (change_points mouse_state) (∅, 0);
      Ok transitions
  end.

(** One round of the first loop of [get_mouse_transition_graph]; the
    accumulator is [(graph, nodes)]. *)
Definition graph_step (acc : graph * gmap string Q)
    (item : (Z * Z) * list Q) : result (graph * gmap string Q) :=
  let '(g, nodes) := acc in
  let '(trans, lengths) := item in
  u ← STATES_get trans.1;
  v ← STATES_get trans.2;
  let rate := np_one_over (np_mean lengths) in
  let nodes := <[u := (default 0 (nodes !! u) + py_sum lengths)%Q]> nodes in
  Ok (add_edge g u v rate (length lengths), nodes).

Fixpoint graph_loop (items : list ((Z * Z) * list Q))
    (acc : graph * gmap string Q) : result (graph * gmap string Q) :=
  match items with
  | [] => Ok acc
  | item :: items' => acc' ← graph_step acc item; graph_loop items' acc'
  end.

(** The body of [get_mouse_transition_graph] after the transitions have
    been computed: both loops, each over the items of a dictionary. *)
Definition transition_graph (transitions : gmap (Z * Z) (list Q))
  : result graph :=
  '(g, nodes) ← graph_loop (map_to_list transitions) (empty_graph, ∅);
  Ok (foldl (λ g item, add_node g item.1 item.2) g (map_to_list nodes)).

(** calculate the graph representing the transitions between different
    states of the mouse *)
Definition get_mouse_transition_graph (self : analyzer)
    (states : option (list Z)) (len_threshold : Q) : result graph :=
  transitions ← get_mouse_state_transitions self states len_threshold;
  transition_graph transitions.

End WithStates.

End Analyzer.

(** ** Tables and vocabulary of the statements *)

Module Tables.

(** Modelled from the spec: the table [mouse.STATES], which [analyzer.py]
    reads and [mouse.py] does not define. The spec describes it as a
    mapping from state code to category name over the valid codes, with
    seven categories; the keys here are [VALID_STATES] and the names
    follow [STATE_ENCODING_DOCUMENTATION]. The general statements take
    the table as a parameter; this one instantiates them. *)
Definition STATES_reference : gmap Z string :=
  list_to_map
    [(0, "unknown"); (10, "overground"); (11, "air"); (12, "hill");
     (13, "valley"); (20, "underground"); (21, "burrow")].

(** Modelled from the spec: a caller-supplied table in which a category
    groups several codes (the spec's glossary: a category is a coarser
    label grouping one or more codes). *)
Definition STATES_coarse : gmap Z string :=
  list_to_map
    [(0, "unknown"); (10, "overground"); (11, "overground");
     (12, "overground"); (13, "overground"); (20, "underground");
     (21, "underground")].

(** The transitions of the sequence 11, 11, 21, 21, 12, 12, 12, 20 at
    time scale 1: two of the three pairs of codes fall into the same
    pair of categories of [STATES_coarse]. *)
Definition merge_transitions : gmap (Z * Z) (list Q) :=
  <[(11, 21) := [1%Q]]> (<[(21, 12) := [2%Q]]> {[(12, 20) := [3%Q]]}).

End Tables.

Module Dwell.

Import Analyzer.

(** The change points [ks] of a sequence, each with the codes around it
    and the dwell the loop measures there: [(k - last_trans) *
    time_scale], where [last_trans] is the change point before [k]. *)
Fixpoint events (mouse_state : list Z) (time_scale : Q) (last_trans : Z)
    (ks : list nat) : list ((Z * Z) * Q) :=
  match ks with
  | [] => []
  | k :: ks' =>
      ((mouse_state !!! k, mouse_state !!! (k + 1)%nat),
       (inject_Z (Z.of_nat k - last_trans) * time_scale)%Q)
      :: events mouse_state time_scale (Z.of_nat k) ks'
  end.

(** All the change points of a sequence, from [last_trans = 0]. *)
Definition all_events (mouse_state : list Z) (time_scale : Q)
  : list ((Z * Z) * Q) :=
  events mouse_state time_scale 0 (change_points mouse_state).

(** The condition under which the loop records an event. *)
Definition recorded (states : list Z) (len_threshold : Q)
    (e : (Z * Z) * Q) : bool :=
  bool_decide (e.1.1 ∈ states) && bool_decide (e.1.2 ∈ states)
  && Qltb len_threshold e.2.

(** [transitions[trans].append(duration)] on a [defaultdict(list)] *)
Definition record (transitions : gmap (Z * Z) (list Q))
    (e : (Z * Z) * Q) : gmap (Z * Z) (list Q) :=
  <[e.1 := default [] (transitions !! e.1) ++ [e.2]]> transitions.

(** The durations of the events of one transition, in index order. *)
Definition durations_of (trans : Z * Z) (es : list ((Z * Z) * Q))
  : list Q :=
  (filter (λ e, e.1 = trans) es).*2.

(** Indices in increasing order: the first is at least [last], and each
    next one lies beyond the one before. *)
Fixpoint increasing_from (last : nat) (ks : list nat) : Prop :=
  match ks with
  | [] => True
  | k :: ks' => (last ≤ k)%nat ∧ increasing_from (S k) ks'
  end.

(** The edge the graph loop adds for one item of the transitions. *)
Definition edge_of (STATES : gmap Z string) (item : (Z * Z) * list Q)
  : option edge :=
  u ← STATES !! item.1.1;
  v ← STATES !! item.1.2;
  Some {| edge_u := u; edge_v := v;
          edge_rate := np_one_over (np_mean item.2);
          edge_count := length item.2 |}.

(** The codes of an item of the transitions are keys of the table. *)
Definition known_item (STATES : gmap Z string)
    (item : (Z * Z) * list Q) : Prop :=
  is_Some (STATES !! item.1.1) ∧ is_Some (STATES !! item.1.2).

(** The edges of a graph from [u] to [v]. *)
Definition edges_between (g : graph) (u v : string) : list edge :=
  filter (λ e, edge_u e = u ∧ edge_v e = v) (graph_edges g).

End Dwell.

(** ** [video/utils.py] *)

Module Utils.

Import Analyzer.

(** [condition.astype(int)] *)
Definition astype_int (condition : list bool) : list Z :=
  (λ b : bool, if b then 1 else 0) <$> condition.

(** [idx.shape = (-1, 2)]: the items in rows of two; numpy raises
    [ValueError] when their number is odd. *)
Fixpoint reshape_pairs (idx : list nat) : result (list (nat * nat)) :=
  match idx with
  | [] => Ok []
  | [_] => Raise (ValueError "total size of new array must be unchanged")
  | s :: e :: idx' => rows ← reshape_pairs idx'; Ok ((s, e) :: rows)
  end.

(** Finds contiguous True regions of the boolean array [condition]:
    rows of the start index and the end index of each region. *)
Definition contiguous_regions (condition : list bool)
  : result (list (nat * nat)) :=
  let d := np_diff (astype_int condition) in
  let idx := np_nonzero ((λ x, negb (x =? 0)) <$> d) in
  let idx := S <$> idx in
  first ← index condition 0%nat;
  let idx := if (first : bool) then 0%nat :: idx else idx in
  last ← index condition (length condition - 1)%nat;
  let idx := if (last : bool) then idx ++ [length condition] else idx in
  reshape_pairs idx.

(** The places where the array changes, counted from [i], the value
    before the array being [prev] and the value after it [False]. *)
Fixpoint boundaries_from (i : nat) (prev : bool) (condition : list bool)
  : list nat :=
  match condition with
  | [] => if prev then [i] else []
  | b :: condition' =>
      (if xorb prev b then [i] else [])
      ++ boundaries_from (S i) b condition'
  end.

(** The index [p] lies in one of the regions. *)
Definition covered (regions : list (nat * nat)) (p : nat) : Prop :=
  ∃ s e, (s, e) ∈ regions ∧ (s ≤ p < e)%nat.

(** Regions in increasing order, the first starting at [lo] or later,
    each not empty and each starting after the index at which the one
    before ends. *)
Fixpoint separated (lo : nat) (regions : list (nat * nat)) : Prop :=
  match regions with
  | [] => True
  | (s, e) :: regions' => (lo ≤ s < e)%nat ∧ separated (S e) regions'
  end.

End Utils.

(** * Properties of the state codec *)

Section MouseCodec.

Import Mouse.

Implicit Types (state rest : gmap string pyval) (value c x : Z).

(** The residue [value % 10] lies in [0, 10), so neither range test of
    [int_to_state] can hold: every integer decodes to the empty state. *)
Lemma int_to_state_empty x : int_to_state x = ∅.
Proof.
  unfold int_to_state.
  pose proof (Z.mod_pos_bound x 10 ltac:(lia)) as Hres.
  replace (10 <=? x `mod` 10) with false by (symmetry; apply Z.leb_gt; lia).
  replace (20 <=? x `mod` 10) with false by (symmetry; apply Z.leb_gt; lia).
  reflexivity.
Qed.

Lemma interpret_state_empty : interpret_state ∅ = Ok (0, ∅).
Proof. reflexivity. Qed.

Lemma state_to_int_empty : state_to_int ∅ = Ok 0.
Proof. reflexivity. Qed.

(** C1 (the code at the codes of the round-trip law): for each code [c]
    of 10, 11, 12, 13, 20, 21, [state_to_int (int_to_state c)] is [0],
    not [c]: decoding takes [c % 10] where the two last digits are
    meant, so [c] decodes to the empty state. *)
Theorem int_to_state_round_trip_lost :
  Forall (λ c, state_to_int (int_to_state c) = Ok 0 ∧
               state_to_int (int_to_state c) ≠ Ok c)
         [10; 11; 12; 13; 20; 21].
Proof.
  repeat constructor;
    rewrite int_to_state_empty, state_to_int_empty; congruence.
Qed.

(** The test of the module passes all the same: it skips every value
    whose decoded state is empty, which is every value. *)
Lemma test_state_conversion_at_ok x : test_state_conversion_at x = Ok tt.
Proof.
  unfold test_state_conversion_at. rewrite int_to_state_empty.
  by rewrite decide_True.
Qed.

Lemma test_state_conversion_passes : test_state_conversion = Ok tt.
Proof.
  unfold test_state_conversion.
  generalize (Z.of_nat <$> seq 0 100). intros l.
  induction l as [|v l IH] using rev_ind; [done|].
  rewrite foldl_app. simpl. rewrite IH. simpl.
  apply test_state_conversion_at_ok.
Qed.

(** C3 (the code at the state [{underground: False}]): with no
    [location] in the dictionary, [state.pop('location')] raises
    [KeyError]; the code 10 is not returned. *)
Theorem state_to_int_overground_no_location :
  state_to_int {["underground" := VBool false]}
  = Raise (KeyError "location").
Proof. reflexivity. Qed.

(** What [interpret_state] leaves when it adds nothing to 10: the
    [location] it popped is put back. *)
Lemma interpret_state_ten state rest :
  interpret_state state = Ok (10, rest) → is_Some (rest !! "location").
Proof.
  unfold interpret_state, pop_default, pop, get. cbn.
  destruct (eq_bool _ false).
  - destruct (delete "underground" state !! "location") as [loc|]; cbn;
      [|discriminate].
    repeat (destruct (eq_str loc _); [intros [= ?]; lia|]).
    intros [= <-]. rewrite lookup_insert_eq. eauto.
  - destruct (eq_bool _ true); [|intros [= ?]; lia].
    destruct (eq_str _ "burrow"); [|intros [= ?]; lia].
    destruct (delete "underground" state !! "location"); cbn;
      [intros [= ?]; lia | discriminate].
Qed.

(** No dictionary at all is encoded as 10. *)
Lemma state_to_int_never_ten state : state_to_int state ≠ Ok 10.
Proof.
  unfold state_to_int.
  destruct (interpret_state state) as [[v rest]|e] eqn:Hi; cbn;
    [|discriminate].
  destruct (decide (rest = ∅)) as [->|]; [|discriminate].
  intros [= ->]. apply interpret_state_ten in Hi as [? Hi].
  by rewrite lookup_empty in Hi.
Qed.

(** C6: for every integer state sequence, the query ['underground']
    gives the elementwise test [10 <= state < 20]: the first branch of
    that name answers, also where the second one, for [20, 30), would
    differ. *)
Theorem query_state_underground (states : list Z) :
  query_state states "underground"
  = Ok ((λ s, (10 <=? s) && (s <? 20)) <$> states)
  ∧ query_state [20] "underground" = Ok [false].
Proof.
  split; [|reflexivity].
  unfold query_state. rewrite bool_decide_eq_true_2 by done.
  f_equal. unfold np_and, np_le_l, np_lt_r.
  induction states as [|s states IH]; [done|].
  cbn. by rewrite IH.
Qed.

(** C7: decoding is total, and the integers that are negative, in
    (0, 10), at least 30, or whose residue is in none of the recognized
    ranges all decode to the empty state. *)
Theorem int_to_state_total x :
  (∃ state, int_to_state x = state) ∧
  (x < 0 ∨ 0 < x < 10 ∨ 30 ≤ x ∨ ¬ (10 ≤ x `mod` 10 < 30) →
   int_to_state x = ∅).
Proof.
  split; [by eexists|]. intros _. apply int_to_state_empty.
Qed.

Lemma int_to_state_total_witness :
  int_to_state (-7) = ∅ ∧ int_to_state 5 = ∅ ∧ int_to_state 111 = ∅.
Proof.
  split; [|split].
  - apply (int_to_state_total (-7)). left. lia.
  - apply (int_to_state_total 5). right. left. lia.
  - apply (int_to_state_total 111). right. right. left. lia.
Defined.

(** C8 (the code at the state [{underground: False, speed: 3}]): no
    branch consumes the field [speed], yet [state.pop('location')]
    raises [KeyError] before the final check is reached, so the error
    that carries the leftover fields is not the one raised. At
    [{underground: False, location: 'nonexistent'}] the final check is
    reached and raises it, with the leftover
    [{location: 'nonexistent'}]. *)
Theorem state_to_int_leftover_key_error :
  state_to_int (<["speed" := VInt 3]> {["underground" := VBool false]})
  = Raise (KeyError "location")
  ∧ state_to_int
      (<["location" := VStr "nonexistent"]> {["underground" := VBool false]})
    = Raise (RuntimeError
               (CannotInterpret {["location" := VStr "nonexistent"]})).
Proof. split; reflexivity. Qed.

End MouseCodec.

(** * Properties of the transition analysis *)

Section ChangePoints.

Import Analyzer Dwell.

Implicit Types (a mouse_state : list Z) (b : list bool) (i k : nat).

Lemma Qltb_lt (x y : Q) : Qltb x y = true ↔ (x < y)%Q.
Proof. unfold Qltb, Qlt. apply Z.ltb_lt. Qed.

Lemma index_lookup_total a k :
  (k < length a)%nat → index a k = Ok (a !!! k).
Proof.
  intros Hk. unfold index.
  destruct (lookup_lt_is_Some_2 a k Hk) as [x Hx].
  rewrite Hx. by rewrite (list_lookup_total_correct _ _ _ Hx).
Qed.

Lemma np_diff_length a : length (np_diff a) = (length a - 1)%nat.
Proof.
  unfold np_diff. rewrite length_zip_with, length_drop, length_take. lia.
Qed.

Lemma np_diff_lookup a k x y :
  a !! k = Some x → a !! S k = Some y → np_diff a !! k = Some (y - x).
Proof.
  intros Hx Hy. unfold np_diff.
  apply lookup_zip_with_Some. exists y, x. split; [done|].
  rewrite lookup_drop. split; [done|].
  rewrite lookup_take_lt; [done|].
  apply lookup_lt_Some in Hy. lia.
Qed.

(** The indices [np.nonzero] returns are those where the array holds. *)
Lemma np_nonzero_from_elem b i k :
  k ∈ np_nonzero_from i b ↔ ∃ j, k = (i + j)%nat ∧ b !! j = Some true.
Proof.
  revert i. induction b as [|x b IH]; intros i; cbn.
  - split; [by intros ?%elem_of_nil | by intros (j & _ & ?)].
  - assert (k ∈ np_nonzero_from (S i) b ↔
            ∃ j, k = (i + S j)%nat ∧ b !! j = Some true) as IH'.
    { rewrite IH. split; intros (j & -> & ?); (exists j; split; [lia|done]). }
    destruct x.
    + rewrite elem_of_cons, IH'. split.
      * intros [->|(j & -> & ?)]; [exists 0%nat | exists (S j)];
          (split; [lia|done]).
      * intros ([|j] & -> & ?); [left; lia | right; by exists j].
    + rewrite IH'. split.
      * intros (j & -> & ?). by exists (S j).
      * intros ([|j] & -> & ?); [done | by exists j].
Qed.

(** A change point is an index whose successor holds another code. *)
Lemma change_points_elem mouse_state k :
  k ∈ change_points mouse_state ↔
  ∃ x y, mouse_state !! k = Some x ∧ mouse_state !! S k = Some y ∧ x ≠ y.
Proof.
  unfold change_points, np_nonzero. rewrite np_nonzero_from_elem. split.
  - intros (j & -> & Hj). cbn in *.
    rewrite list_lookup_fmap in Hj.
    destruct (np_diff mouse_state !! j) as [d|] eqn:Hd; [|done].
    injection Hj as Hd0.
    pose proof (lookup_lt_Some _ _ _ Hd) as Hlt.
    rewrite np_diff_length in Hlt.
    destruct (lookup_lt_is_Some_2 mouse_state j ltac:(lia)) as [x Hx].
    destruct (lookup_lt_is_Some_2 mouse_state (S j) ltac:(lia)) as [y Hy].
    exists x, y. split_and!; [done..|].
    rewrite (np_diff_lookup _ _ _ _ Hx Hy) in Hd. injection Hd as <-.
    apply negb_true_iff, Z.eqb_neq in Hd0. lia.
  - intros (x & y & Hx & Hy & Hne). exists k. split; [done|].
    rewrite list_lookup_fmap, (np_diff_lookup _ _ _ _ Hx Hy). cbn.
    f_equal. apply negb_true_iff, Z.eqb_neq. lia.
Qed.

Lemma change_points_bound mouse_state k :
  k ∈ change_points mouse_state → (k + 1 < length mouse_state)%nat.
Proof.
  intros (x & y & _ & Hy%lookup_lt_Some & _)%change_points_elem. lia.
Qed.

Lemma increasing_from_weaken last last' ks :
  (last' ≤ last)%nat → increasing_from last ks → increasing_from last' ks.
Proof. destruct ks; cbn; [done|]. intros ? [? ?]. split; [lia|done]. Qed.

Lemma np_nonzero_from_increasing b i : increasing_from i (np_nonzero_from i b).
Proof.
  revert i. induction b as [|[] b IH]; intros i; cbn; [done| |].
  - split; [lia|apply IH].
  - eapply increasing_from_weaken; [|apply IH]. lia.
Qed.

Lemma change_points_increasing mouse_state :
  increasing_from 0 (change_points mouse_state).
Proof. apply np_nonzero_from_increasing. Qed.

End ChangePoints.

Section Transitions.

Import Analyzer Dwell.

Variable STATES : gmap Z string.

Implicit Types (mouse_state states : list Z) (ks : list nat)
  (transitions : gmap (Z * Z) (list Q)) (e : (Z * Z) * Q)
  (es : list ((Z * Z) * Q)) (trans : Z * Z).

(** [code in mouse.STATES.keys()] *)
Lemma elem_of_STATES_keys (code : Z) :
  code ∈ STATES_keys STATES ↔ is_Some (STATES !! code).
Proof.
  unfold STATES_keys. rewrite list_elem_of_fmap. split.
  - intros ([c name] & -> & H%elem_of_map_to_list). by exists name.
  - intros [name H]. exists (code, name). by rewrite elem_of_map_to_list.
Qed.

(** At an index with a successor the step raises nothing: it records the
    event when the condition holds and moves [last_trans] to [k]. *)
Lemma transition_step_ok mouse_state time_scale states len_threshold
    transitions (last_trans : Z) (k : nat) :
  (k + 1 < length mouse_state)%nat →
  let e := ((mouse_state !!! k, mouse_state !!! (k + 1)%nat),
            (inject_Z (Z.of_nat k - last_trans) * time_scale)%Q) in
  transition_step mouse_state time_scale states len_threshold
    (transitions, last_trans) k
  = Ok (if recorded states len_threshold e then record transitions e
        else transitions, Z.of_nat k).
Proof.
  intros Hk e. unfold transition_step.
  rewrite !index_lookup_total by lia. reflexivity.
Qed.

(** The loop over change points folds [record] over the events that
    meet the condition. *)
Lemma transition_loop_ok mouse_state time_scale states len_threshold ks :
  ∀ transitions (last_trans : Z),
  Forall (λ k, (k + 1 < length mouse_state)%nat) ks →
  transition_loop mouse_state time_scale states len_threshold ks
    (transitions, last_trans)
  = Ok (foldl record transitions
          (filter (λ e, recorded states len_threshold e)
             (events mouse_state time_scale last_trans ks)),
        default last_trans (last (Z.of_nat <$> ks))).
Proof.
  induction ks as [|k ks IH]; intros transitions last_trans Hks; [done|].
  apply Forall_cons in Hks as [Hk Hks].
  cbn [transition_loop events]. rewrite transition_step_ok by done.
  cbn [mbind result_bind]. rewrite IH by done.
  rewrite filter_cons. f_equal. f_equal.
  - by destruct (recorded _ _ _).
  - rewrite fmap_cons, last_cons. by destruct (last _).
Qed.

(** What a fold of [record] leaves under one key: the durations already
    there, then those of the events of that key, in order. *)
Lemma foldl_record_lookup es : ∀ transitions trans,
  default [] (foldl record transitions es !! trans)
  = default [] (transitions !! trans) ++ durations_of trans es.
Proof.
  unfold durations_of.
  induction es as [|e es IH]; intros transitions trans.
  { cbn. by rewrite app_nil_r. }
  rewrite filter_cons. cbn [foldl]. rewrite IH. unfold record at 1.
  destruct (decide (e.1 = trans)) as [<-|Hne].
  - rewrite lookup_insert_eq. cbn. by rewrite <- app_assoc.
  - by rewrite lookup_insert_ne.
Qed.

Lemma foldl_record_is_Some es : ∀ transitions trans,
  is_Some (foldl record transitions es !! trans)
  ↔ is_Some (transitions !! trans) ∨ durations_of trans es ≠ [].
Proof.
  unfold durations_of.
  induction es as [|e es IH]; intros transitions trans.
  { cbn. split; [by left | by intros [?|?]]. }
  rewrite filter_cons. cbn [foldl]. rewrite IH. unfold record at 1.
  destruct (decide (e.1 = trans)) as [<-|Hne].
  - rewrite lookup_insert_eq. cbn. split; [intros _; by right|].
    intros _. left. eauto.
  - by rewrite lookup_insert_ne.
Qed.

(** The transitions a present sequence gives: no exception, and the
    events that meet the condition, grouped by transition. *)
Lemma get_mouse_state_transitions_ok self mouse_state
    (allowed : option (list Z)) len_threshold :
  mouse_trajectory_states self = Some mouse_state →
  get_mouse_state_transitions STATES self allowed len_threshold
  = Ok (foldl record ∅
          (filter (λ e, recorded (default (STATES_keys STATES) allowed)
                          len_threshold e)
             (all_events mouse_state (time_scale self)))).
Proof.
  intros Hms. unfold get_mouse_state_transitions. rewrite Hms.
  rewrite transition_loop_ok; [done|].
  apply Forall_forall. intros k. apply change_points_bound.
Qed.

(** The durations the loop stores under a key are those of the events
    of that key that meet the condition. *)
Lemma elem_of_durations_of trans (d : Q) (P : (Z * Z) * Q → bool) es :
  d ∈ durations_of trans (filter (λ e, P e) es)
  ↔ (trans, d) ∈ es ∧ P (trans, d) = true.
Proof.
  unfold durations_of. rewrite list_elem_of_fmap. split.
  - intros ([t d'] & -> & [<- [HP He]%list_elem_of_filter]%list_elem_of_filter).
    cbn. split; [done|]. by apply Is_true_eq_true.
  - intros [He HP]. exists (trans, d). split; [done|].
    rewrite !list_elem_of_filter. split_and!; [done| |done].
    by apply Is_true_eq_left.
Qed.

Lemma recorded_true states len_threshold e :
  recorded states len_threshold e = true
  ↔ e.1.1 ∈ states ∧ e.1.2 ∈ states ∧ (len_threshold < e.2)%Q.
Proof.
  unfold recorded.
  rewrite !andb_true_iff, !bool_decide_eq_true, Qltb_lt. tauto.
Qed.

(** With a time scale that is not negative, no dwell is negative. *)
Lemma events_nonneg mouse_state time_scale ks : ∀ last : nat,
  (0 <= time_scale)%Q →
  increasing_from last ks →
  ∀ e, e ∈ events mouse_state time_scale (Z.of_nat last) ks → (0 <= e.2)%Q.
Proof.
  induction ks as [|k ks IH]; intros last Hts Hinc e; cbn.
  { by intros ?%elem_of_nil. }
  destruct Hinc as [Hk Hinc]. intros [->|He]%elem_of_cons.
  - cbn. apply Qmult_le_0_compat; [|done].
    change 0%Q with (inject_Z 0). rewrite <- Zle_Qle. lia.
  - apply (IH k); [done| |done].
    eapply increasing_from_weaken; [|done]. lia.
Qed.

Lemma all_events_nonneg mouse_state time_scale e :
  (0 <= time_scale)%Q →
  e ∈ all_events mouse_state time_scale → (0 <= e.2)%Q.
Proof.
  intros Hts. apply (events_nonneg _ _ _ 0%nat); [done|].
  apply change_points_increasing.
Qed.

(** C9: on a present but empty state sequence the transitions are the
    empty dictionary and nothing is raised; when the trajectory is
    missing from the data a [RuntimeError] is raised; the two results
    differ. *)
Theorem transitions_empty_vs_missing (ts : Q) (allowed : option (list Z))
    (len_threshold : Q) :
  let present := {| mouse_trajectory_states := Some []; time_scale := ts |} in
  let missing := {| mouse_trajectory_states := None; time_scale := ts |} in
  get_mouse_state_transitions STATES present allowed len_threshold = Ok ∅
  ∧ get_mouse_state_transitions STATES missing allowed len_threshold
    = Raise (RuntimeError TrajectoryMissing)
  ∧ get_mouse_state_transitions STATES present allowed len_threshold
    ≠ get_mouse_state_transitions STATES missing allowed len_threshold.
Proof. cbn. split_and!; [done..|discriminate]. Qed.

(** The scenario sequence under any set of allowed codes that holds 10,
    11 and 12. *)
Lemma transitions_scenario_gen (allowed : option (list Z)) :
  10 ∈ default (STATES_keys STATES) allowed →
  11 ∈ default (STATES_keys STATES) allowed →
  12 ∈ default (STATES_keys STATES) allowed →
  get_mouse_state_transitions STATES
    {| mouse_trajectory_states := Some [10; 10; 10; 11; 11; 12];
       time_scale := 1 |} allowed 0
  = Ok (<[(10, 11) := [2%Q]]> {[(11, 12) := [2%Q]]}).
Proof.
  intros H10 H11 H12.
  rewrite (get_mouse_state_transitions_ok _ [10; 10; 10; 11; 11; 12])
    by done.
  change (all_events _ _) with [((10, 11), 2%Q); ((11, 12), 2%Q)].
  rewrite !filter_cons, filter_nil.
  rewrite !decide_True
    by (apply Is_true_eq_left, recorded_true; by split_and!).
  reflexivity.
Qed.

(** C2 (amended): for the sequence 10, 10, 10, 11, 11, 12 with time
    scale 1, threshold 0 and allowed codes that hold 10, 11 and 12,
    exactly two transitions are returned: (10, 11) with the single
    duration 2 and (11, 12) with the single duration 2. *)
Theorem transitions_scenario (allowed : option (list Z)) :
  10 ∈ default (STATES_keys STATES) allowed →
  11 ∈ default (STATES_keys STATES) allowed →
  12 ∈ default (STATES_keys STATES) allowed →
  get_mouse_state_transitions STATES
    {| mouse_trajectory_states := Some [10; 10; 10; 11; 11; 12];
       time_scale := 1 |} allowed 0
  = Ok (<[(10, 11) := [2%Q]]> {[(11, 12) := [2%Q]]}).
Proof. apply transitions_scenario_gen. Qed.

(** C5 (amended): with the allowed codes left at their default, the
    allowed codes are the keys of the table [STATES]. Nothing is raised
    on a present sequence; a duration is stored under a transition
    exactly when a change point of that transition has it, both codes
    are keys of the table and the duration strictly exceeds the
    threshold; and with threshold 0 and a time scale that is not
    negative, a change point whose codes are keys of the table is left
    out exactly when its duration is zero. *)
Theorem default_states_transitions self mouse_state (len_threshold : Q) :
  mouse_trajectory_states self = Some mouse_state →
  ∃ transitions,
    get_mouse_state_transitions STATES self None len_threshold
    = Ok transitions
    ∧ transitions
      = foldl record ∅
          (filter (λ e, recorded (STATES_keys STATES) len_threshold e)
             (all_events mouse_state (time_scale self)))
    ∧ (∀ trans (d : Q),
         d ∈ default [] (transitions !! trans)
         ↔ (trans, d) ∈ all_events mouse_state (time_scale self)
           ∧ is_Some (STATES !! trans.1) ∧ is_Some (STATES !! trans.2)
           ∧ (len_threshold < d)%Q)
    ∧ ((len_threshold == 0)%Q → (0 <= time_scale self)%Q →
       ∀ trans (d : Q),
         (trans, d) ∈ all_events mouse_state (time_scale self) →
         is_Some (STATES !! trans.1) → is_Some (STATES !! trans.2) →
         (d ∉ default [] (transitions !! trans) ↔ (d == 0)%Q)).
Proof.
  intros Hms. eexists. split.
  { by apply get_mouse_state_transitions_ok. }
  split; [done|].
  assert (∀ trans (d : Q),
    d ∈ default [] (foldl record ∅
          (filter (λ e, recorded (STATES_keys STATES) len_threshold e)
             (all_events mouse_state (time_scale self))) !! trans)
    ↔ (trans, d) ∈ all_events mouse_state (time_scale self)
      ∧ is_Some (STATES !! trans.1) ∧ is_Some (STATES !! trans.2)
      ∧ (len_threshold < d)%Q) as Hchar.
  { intros trans d. cbn [default].
    rewrite foldl_record_lookup, lookup_empty. cbn [default app].
    rewrite elem_of_durations_of, recorded_true. cbn [fst snd].
    by rewrite !elem_of_STATES_keys. }
  split; [exact Hchar|].
  intros Hthr Hts trans d He H1 H2. rewrite Hchar.
  pose proof (all_events_nonneg _ _ _ Hts He) as Hd. cbn in Hd.
  rewrite Hthr. split.
  - intros Hnot. apply Qle_antisym; [|done].
    apply Qnot_lt_le. intros Hlt. apply Hnot. by split_and!.
  - intros Hd0 (_ & _ & _ & Hlt). rewrite Hd0 in Hlt.
    by apply Qlt_irrefl in Hlt.
Qed.

End Transitions.

Section TransitionsAtTables.

Import Analyzer Dwell Tables.

Lemma transitions_scenario_witness :
  get_mouse_state_transitions STATES_reference
    {| mouse_trajectory_states := Some [10; 10; 10; 11; 11; 12];
       time_scale := 1 |} None 0
  = Ok (<[(10, 11) := [2%Q]]> {[(11, 12) := [2%Q]]}).
Proof.
  apply (transitions_scenario STATES_reference None);
    apply elem_of_STATES_keys; eexists; reflexivity.
Defined.

(** C2 (as stated, refuted): on the scenario sequence the transition
    (10, 11) does not carry the single duration 3. *)
Lemma transitions_scenario_not_three :
  ¬ ∃ transitions (d : Q),
      get_mouse_state_transitions STATES_reference
        {| mouse_trajectory_states := Some [10; 10; 10; 11; 11; 12];
           time_scale := 1 |} None 0
      = Ok transitions
      ∧ transitions !! (10, 11) = Some [d] ∧ (d == 3)%Q.
Proof.
  intros (transitions & d & Ht & Hd & H3).
  rewrite transitions_scenario_gen in Ht
    by (apply elem_of_STATES_keys; eexists; reflexivity).
  injection Ht as <-. rewrite lookup_insert_eq in Hd.
  injection Hd as <-. discriminate H3.
Qed.

Lemma default_states_transitions_witness :
  ∃ transitions,
    get_mouse_state_transitions STATES_reference
      {| mouse_trajectory_states := Some [10; 10; 11; 30; 30; 31];
         time_scale := 1 |} None 0
    = Ok transitions
    ∧ ∀ trans (d : Q),
        d ∈ default [] (transitions !! trans)
        ↔ (trans, d) ∈ all_events [10; 10; 11; 30; 30; 31] 1
          ∧ is_Some (STATES_reference !! trans.1)
          ∧ is_Some (STATES_reference !! trans.2)
          ∧ (0 < d)%Q.
Proof.
  destruct (default_states_transitions STATES_reference
              {| mouse_trajectory_states := Some [10; 10; 11; 30; 30; 31];
                 time_scale := 1 |} [10; 10; 11; 30; 30; 31] 0 eq_refl)
    as (transitions & Hok & _ & Hchar & _).
  exists transitions. split; [exact Hok | exact Hchar].
Defined.

(** C5 (as stated, refuted): with the allowed codes at their default, a
    change point whose duration exceeds the threshold is not recorded
    when a code it connects is no key of the table. *)
Lemma default_states_filter_codes :
  ¬ ∀ e, e ∈ all_events [30; 30; 31] 1 → (0 < e.2)%Q →
      ∃ transitions durations,
        get_mouse_state_transitions STATES_reference
          {| mouse_trajectory_states := Some [30; 30; 31];
             time_scale := 1 |} None 0
        = Ok transitions
        ∧ transitions !! e.1 = Some durations ∧ e.2 ∈ durations.
Proof.
  intros H.
  destruct (H ((30, 31), 1%Q)) as (transitions & durations & Ht & Hl & _).
  { apply list_elem_of_here. }
  { reflexivity. }
  vm_compute in Ht. injection Ht as <-. cbn in Hl. discriminate Hl.
Qed.

End TransitionsAtTables.

(** * Properties of the transition graph *)

Section Graph.

Import Analyzer Dwell.

Variable STATES : gmap Z string.

Implicit Types (g : graph) (nodes : gmap string Q)
  (items : list ((Z * Z) * list Q)) (transitions : gmap (Z * Z) (list Q)).

(** One round adds exactly the edge of its item, when the codes of the
    item are keys of the table. *)
Lemma graph_step_ok g nodes item :
  known_item STATES item →
  ∃ g' nodes',
    graph_step STATES (g, nodes) item = Ok (g', nodes')
    ∧ Some <$> graph_edges g'
      = (Some <$> graph_edges g) ++ [edge_of STATES item].
Proof.
  intros [[u Hu] [v Hv]]. destruct item as [[a b] lengths]. cbn in *.
  unfold graph_step, STATES_get, edge_of. cbn. rewrite Hu, Hv. cbn.
  do 2 eexists. split; [done|]. cbn. by rewrite fmap_app.
Qed.

Lemma graph_loop_ok items : ∀ g nodes,
  Forall (known_item STATES) items →
  ∃ g' nodes',
    graph_loop STATES items (g, nodes) = Ok (g', nodes')
    ∧ Some <$> graph_edges g'
      = (Some <$> graph_edges g) ++ (edge_of STATES <$> items).
Proof.
  induction items as [|item items IH]; intros g nodes Hknown.
  { do 2 eexists. split; [done|]. cbn. by rewrite app_nil_r. }
  apply Forall_cons in Hknown as [Hitem Hknown]. cbn [graph_loop].
  destruct (graph_step_ok g nodes item Hitem) as (g1 & nodes1 & -> & Hg1).
  cbn [mbind result_bind].
  destruct (IH g1 nodes1 Hknown) as (g' & nodes' & -> & Hg').
  do 2 eexists. split; [done|].
  by rewrite Hg', Hg1, fmap_cons, <- app_assoc.
Qed.

(** Setting the durations of the nodes leaves the edges alone. *)
Lemma foldl_add_node_edges (l : list (string * Q)) : ∀ g,
  graph_edges (foldl (λ g item, add_node g item.1 item.2) g l)
  = graph_edges g.
Proof. induction l as [|x l IH]; intros g; cbn; [done|]. by rewrite IH. Qed.

(** The graph of a dictionary of transitions whose codes are all keys
    of the table: nothing is raised, and the edges are those of the
    items of the dictionary, one per pair of codes. *)
Lemma transition_graph_ok transitions :
  map_Forall (λ trans lengths, known_item STATES (trans, lengths))
    transitions →
  ∃ g, transition_graph STATES transitions = Ok g
       ∧ Some <$> graph_edges g
         = edge_of STATES <$> map_to_list transitions.
Proof.
  intros Hknown. unfold transition_graph.
  destruct (graph_loop_ok (map_to_list transitions) empty_graph ∅)
    as (g & nodes & -> & Hg).
  { apply Forall_forall. intros [trans lengths] H%elem_of_map_to_list.
    by apply Hknown. }
  cbn. eexists. split; [done|]. by rewrite foldl_add_node_edges.
Qed.

(** The edge of a record is in the graph, at the place of the record
    among the items. *)
Lemma transition_graph_edge transitions g trans lengths (u v : string) :
  Some <$> graph_edges g = edge_of STATES <$> map_to_list transitions →
  transitions !! trans = Some lengths →
  STATES !! trans.1 = Some u → STATES !! trans.2 = Some v →
  ∃ i, map_to_list transitions !! i = Some (trans, lengths)
       ∧ graph_edges g !! i
         = Some {| edge_u := u; edge_v := v;
                   edge_rate := np_one_over (np_mean lengths);
                   edge_count := length lengths |}.
Proof.
  intros Hg Hl Hu Hv.
  apply elem_of_map_to_list, list_elem_of_lookup in Hl as [i Hi].
  exists i. split; [done|].
  apply (f_equal (λ l, l !! i)) in Hg.
  rewrite !list_lookup_fmap, Hi in Hg. cbn in Hg.
  unfold edge_of in Hg. cbn in Hg. rewrite Hu, Hv in Hg. cbn in Hg.
  destruct (graph_edges g !! i); by simplify_eq/=.
Qed.


(** Two places of a list that pass a filter leave at least two items. *)
Lemma filter_two_places {A} (P : A → Prop) `{!∀ x, Decision (P x)}
    (l : list A) (i j : nat) (x y : A) :
  i ≠ j → l !! i = Some x → l !! j = Some y → P x → P y →
  (2 ≤ length (filter P l))%nat.
Proof.
  revert i j x y.
  assert (∀ i j x y, (i < j)%nat → l !! i = Some x → l !! j = Some y →
                     P x → P y → (2 ≤ length (filter P l))%nat) as Hlt.
  { intros i j x y Hij Hi Hj Hx Hy.
    rewrite <- (take_drop_middle l i x Hi), filter_app, filter_cons_True by done.
    assert (y ∈ filter P (drop (S i) l)) as Hin.
    { apply list_elem_of_filter. split; [done|].
      apply list_elem_of_lookup. exists (j - S i)%nat.
      rewrite lookup_drop. rewrite <- Hj. f_equal. lia. }
    rewrite length_app. cbn.
    destruct (filter P (drop (S i) l)); [by apply elem_of_nil in Hin|].
    cbn. lia. }
  intros i j x y Hne Hi Hj Hx Hy.
  destruct (decide (i < j)%nat); [by eapply (Hlt i j)|].
  eapply (Hlt j i); [lia|done..].
Qed.

(** C4 (amended): when two distinct pairs of codes of the transitions
    map to the same pair of categories, the graph holds one edge for
    each of the two pairs, so at least two parallel edges between the
    categories; each edge has the count and the rate of its own record,
    and the graph has as many edges as the transitions have pairs. *)
Theorem parallel_edges_per_code_pair transitions (trans1 trans2 : Z * Z)
    (lengths1 lengths2 : list Q) (u v : string) :
  map_Forall (λ trans lengths, known_item STATES (trans, lengths))
    transitions →
  trans1 ≠ trans2 →
  transitions !! trans1 = Some lengths1 →
  transitions !! trans2 = Some lengths2 →
  STATES !! trans1.1 = Some u → STATES !! trans1.2 = Some v →
  STATES !! trans2.1 = Some u → STATES !! trans2.2 = Some v →
  ∃ g (i j : nat),
    transition_graph STATES transitions = Ok g
    ∧ i ≠ j
    ∧ graph_edges g !! i
      = Some {| edge_u := u; edge_v := v;
                edge_rate := np_one_over (np_mean lengths1);
                edge_count := length lengths1 |}
    ∧ graph_edges g !! j
      = Some {| edge_u := u; edge_v := v;
                edge_rate := np_one_over (np_mean lengths2);
                edge_count := length lengths2 |}
    ∧ (2 ≤ length (edges_between g u v))%nat
    ∧ length (graph_edges g) = size transitions.
Proof.
  intros Hknown Hne Hl1 Hl2 Hu1 Hv1 Hu2 Hv2.
  destruct (transition_graph_ok transitions Hknown) as (g & Hg & Hedges).
  destruct (transition_graph_edge _ _ _ _ _ _ Hedges Hl1 Hu1 Hv1)
    as (i & Hi & Hei).
  destruct (transition_graph_edge _ _ _ _ _ _ Hedges Hl2 Hu2 Hv2)
    as (j & Hj & Hej).
  assert (i ≠ j) as Hij by (intros ->; congruence).
  exists g, i, j. split_and!; [done..| |].
  - unfold edges_between. by eapply (filter_two_places _ _ i j).
  - apply (f_equal length) in Hedges.
    rewrite !length_fmap in Hedges. by rewrite Hedges, length_map_to_list.
Qed.

(** C10 (amended): when the codes of all records are keys of the table,
    the graph is returned and nothing is raised; the edge of a record
    whose durations have mean exactly 0 carries the infinite rate. *)
Theorem zero_mean_rate_is_infinite transitions (trans : Z * Z)
    (lengths : list Q) (u v : string) (mean : Q) :
  map_Forall (λ trans lengths, known_item STATES (trans, lengths))
    transitions →
  transitions !! trans = Some lengths →
  STATES !! trans.1 = Some u → STATES !! trans.2 = Some v →
  np_mean lengths = Finite mean → (mean == 0)%Q →
  ∃ g, transition_graph STATES transitions = Ok g
       ∧ {| edge_u := u; edge_v := v; edge_rate := Inf;
            edge_count := length lengths |} ∈ graph_edges g.
Proof.
  intros Hknown Hl Hu Hv Hmean Hzero.
  destruct (transition_graph_ok transitions Hknown) as (g & Hg & Hedges).
  destruct (transition_graph_edge _ _ _ _ _ _ Hedges Hl Hu Hv)
    as (i & _ & Hei).
  exists g. split; [done|].
  apply list_elem_of_lookup. exists i. rewrite Hei, Hmean. cbn.
  apply Qeq_bool_iff in Hzero. by rewrite Hzero.
Qed.

End Graph.

Section GraphAtTables.

Import Analyzer Dwell Tables.

Lemma merge_transitions_reached :
  get_mouse_state_transitions STATES_coarse
    {| mouse_trajectory_states := Some [11; 11; 21; 21; 12; 12; 12; 20];
       time_scale := 1 |} None 0
  = Ok merge_transitions.
Proof. reflexivity. Qed.

Lemma merge_transitions_known :
  map_Forall (λ trans lengths, known_item STATES_coarse (trans, lengths))
    merge_transitions.
Proof.
  unfold merge_transitions.
  repeat (apply map_Forall_insert_2; [split; eexists; reflexivity|]).
  apply map_Forall_empty.
Qed.

Lemma parallel_edges_per_code_pair_witness :
  ∃ g (i j : nat),
    transition_graph STATES_coarse merge_transitions = Ok g
    ∧ i ≠ j
    ∧ graph_edges g !! i
      = Some {| edge_u := "overground"; edge_v := "underground";
                edge_rate := np_one_over (np_mean [1%Q]);
                edge_count := 1 |}
    ∧ graph_edges g !! j
      = Some {| edge_u := "overground"; edge_v := "underground";
                edge_rate := np_one_over (np_mean [3%Q]);
                edge_count := 1 |}
    ∧ (2 ≤ length (edges_between g "overground" "underground"))%nat
    ∧ length (graph_edges g) = size merge_transitions.
Proof.
  apply (parallel_edges_per_code_pair STATES_coarse merge_transitions
           (11, 21) (12, 20) [1%Q] [3%Q] "overground" "underground").
  - exact merge_transitions_known.
  - discriminate.
  - reflexivity.
  - reflexivity.
  - reflexivity.
  - reflexivity.
  - reflexivity.
  - reflexivity.
Defined.

(** C4 (as stated, refuted): the pairs (11, 21) and (12, 20) map to the
    same pair of categories, and no edge between the two categories is
    alone there or has the summed count 2. *)
Lemma no_merged_edge :
  ¬ ∃ g e,
      transition_graph STATES_coarse merge_transitions = Ok g
      ∧ e ∈ edges_between g "overground" "underground"
      ∧ (edges_between g "overground" "underground" = [e]
         ∨ edge_count e = 2%nat).
Proof.
  intros (g & e & Hg & He & Hclaim).
  vm_compute in Hg. injection Hg as <-. vm_compute in He, Hclaim.
  destruct Hclaim as [Hone|Hcount]; [discriminate Hone|].
  repeat (apply elem_of_cons in He as [->|He]; [discriminate Hcount|]).
  by apply elem_of_nil in He.
Qed.

(** The record [(10, 11) : [0]] is what the sequence 10, 11 gives under
    a negative threshold: the change point at index 0 has duration 0. *)
Lemma zero_duration_reached :
  get_mouse_state_transitions STATES_reference
    {| mouse_trajectory_states := Some [10; 11]; time_scale := 1 |}
    None (-1)
  = Ok {[(10, 11) := [0%Q]]}.
Proof. reflexivity. Qed.

Lemma zero_mean_rate_is_infinite_witness :
  ∃ g, transition_graph STATES_reference {[(10, 11) := [0%Q]]} = Ok g
       ∧ {| edge_u := "overground"; edge_v := "air"; edge_rate := Inf;
            edge_count := 1 |} ∈ graph_edges g.
Proof.
  apply (zero_mean_rate_is_infinite STATES_reference {[(10, 11) := [0%Q]]}
           (10, 11) [0%Q] "overground" "air" (0 / 1)%Q).
  - apply map_Forall_singleton. split; eexists; reflexivity.
  - reflexivity.
  - reflexivity.
  - reflexivity.
  - reflexivity.
  - reflexivity.
Defined.

(** C10 (as stated, refuted): for a record whose only duration is 0 the
    graph is returned with an infinite rate, and nothing is raised. *)
Lemma zero_mean_not_raised :
  ¬ ∃ exn,
      get_mouse_transition_graph STATES_reference
        {| mouse_trajectory_states := Some [10; 11]; time_scale := 1 |}
        None (-1)
      = Raise exn.
Proof. intros (exn & H). vm_compute in H. discriminate H. Qed.

End GraphAtTables.

(** * More on the state codec *)

Local Set Warnings "-clear-no-such-hyp".

Section StateToInt.

Import Mouse.

Implicit Types (state rest : gmap string pyval) (v : Z) (loc : pyval).

Lemma eq_str_true loc (s : string) : eq_str loc s = true ↔ loc = VStr s.
Proof.
  destruct loc; cbn; try (split; [discriminate|congruence]).
  rewrite bool_decide_eq_true. split; congruence.
Qed.

(** What the branches leave is part of the dictionary, without the key
    ['underground']. *)
Lemma interpret_state_rest state v rest :
  interpret_state state = Ok (v, rest) →
  rest ⊆ delete "underground" state.
Proof.
  unfold interpret_state, pop_default, pop, get.
  assert (delete "underground" state !! "location" = state !! "location")
    as Hloc by (by apply lookup_delete_ne).
  destruct (eq_bool _ false).
  - rewrite Hloc. destruct (state !! "location") as [loc|] eqn:Hl; cbn;
      [|discriminate].
    repeat (destruct (eq_str loc _);
            [intros [= _ <-]; apply delete_subseteq|]).
    intros [= _ <-]. rewrite insert_delete_id; [done|]. by rewrite Hloc.
  - destruct (eq_bool _ true); [|by intros [= _ <-]].
    destruct (eq_str _ "burrow"); [|by intros [= _ <-]].
    destruct (delete "underground" state !! "location"); cbn;
      [|discriminate].
    intros [= _ <-]. apply delete_subseteq.
Qed.

(** The outcome of the branches, case by case. *)
Lemma interpret_state_cases state :
  let u := get "underground" state in
  let s1 := delete "underground" state in
  interpret_state state =
  if eq_bool u false then
    match state !! "location" with
    | None => Raise (KeyError "location")
    | Some loc =>
        if eq_str loc "air" then Ok (11, delete "location" s1)
        else if eq_str loc "hill" then Ok (12, delete "location" s1)
        else if eq_str loc "valley" then Ok (13, delete "location" s1)
        else Ok (10, s1)
    end
  else if eq_bool u true then
    if eq_str (default VNone (state !! "location")) "burrow"
    then Ok (21, delete "location" s1)
    else Ok (20, s1)
  else Ok (0, s1).
Proof.
  intros u s1. subst u s1. unfold interpret_state, pop_default, pop, get.
  assert (delete "underground" state !! "location" = state !! "location")
    as Hloc by (by apply lookup_delete_ne).
  rewrite Hloc.
  destruct (eq_bool _ false).
  - destruct (state !! "location") as [loc|] eqn:Hl; cbn; [|done].
    repeat (destruct (eq_str loc _); [done|]).
    rewrite insert_delete_id; [done|]. by rewrite Hloc.
  - destruct (eq_bool _ true); [|done].
    destruct (state !! "location") as [loc|]; cbn; [|done].
    by destruct (eq_str loc "burrow").
Qed.


Lemma eq_str_false loc (s : string) : eq_str loc s = false ↔ loc ≠ VStr s.
Proof. rewrite <- eq_str_true. by destruct (eq_str loc s). Qed.

Lemma delete_underground_empty state :
  delete "underground" state = ∅ ↔
  delete "location" (delete "underground" state) = ∅
  ∧ state !! "location" = None.
Proof.
  split.
  - intros H. rewrite H, delete_empty. split; [done|].
    rewrite <- (lookup_delete_ne state "underground" "location") by done.
    by rewrite H.
  - intros [H Hloc]. rewrite delete_id in H; [done|].
    by rewrite lookup_delete_ne.
Qed.

(** When encoding succeeds: the dictionary holds nothing but
    ['underground'] and ['location'], and the code is the one of the
    table row the two values select. *)
Lemma state_to_int_ok_char state v :
  state_to_int state = Ok v ↔
  delete "location" (delete "underground" state) = ∅
  ∧ (if eq_bool (get "underground" state) false then
       (state !! "location" = Some (VStr "air") ∧ v = 11)
       ∨ (state !! "location" = Some (VStr "hill") ∧ v = 12)
       ∨ (state !! "location" = Some (VStr "valley") ∧ v = 13)
     else if eq_bool (get "underground" state) true then
       (state !! "location" = Some (VStr "burrow") ∧ v = 21)
       ∨ (state !! "location" = None ∧ v = 20)
     else state !! "location" = None ∧ v = 0).
Proof.
  unfold state_to_int. rewrite interpret_state_cases. cbn zeta.
  pose proof (delete_underground_empty state) as Hempty.
  destruct (eq_bool (get "underground" state) false).
  - destruct (state !! "location") as [loc|] eqn:Hl; [|cbn; naive_solver].
    destruct (eq_str loc "air") eqn:Ha.
    { apply eq_str_true in Ha as ->. cbn. case_decide; naive_solver. }
    destruct (eq_str loc "hill") eqn:Hh.
    { apply eq_str_true in Hh as ->. cbn. case_decide; naive_solver. }
    destruct (eq_str loc "valley") eqn:Hv.
    { apply eq_str_true in Hv as ->. cbn. case_decide; naive_solver. }
    apply eq_str_false in Ha, Hh, Hv. cbn.
    case_decide; naive_solver.
  - destruct (eq_bool (get "underground" state) true).
    + destruct (state !! "location") as [loc|] eqn:Hl; cbn.
      * destruct (eq_str loc "burrow") eqn:Hb.
        { apply eq_str_true in Hb as ->. cbn. case_decide; naive_solver. }
        apply eq_str_false in Hb. cbn. case_decide; naive_solver.
      * case_decide; naive_solver.
    + cbn. case_decide; naive_solver.
Qed.


(** X1: encoding succeeds exactly on the rows of the table: the
    dictionary holds no key but ['underground'] and ['location']; with
    [underground == False] the location is 'air', 'hill' or 'valley' and
    the code 11, 12 or 13; with [underground == True] the location is
    'burrow' (code 21) or missing (code 20); otherwise the location is
    missing and the code is 0. *)
Theorem state_to_int_accepts state v :
  state_to_int state = Ok v ↔
  delete "location" (delete "underground" state) = ∅
  ∧ (if eq_bool (get "underground" state) false then
       (state !! "location" = Some (VStr "air") ∧ v = 11)
       ∨ (state !! "location" = Some (VStr "hill") ∧ v = 12)
       ∨ (state !! "location" = Some (VStr "valley") ∧ v = 13)
     else if eq_bool (get "underground" state) true then
       (state !! "location" = Some (VStr "burrow") ∧ v = 21)
       ∨ (state !! "location" = None ∧ v = 20)
     else state !! "location" = None ∧ v = 0).
Proof. apply state_to_int_ok_char. Qed.

Lemma state_to_int_range state v :
  state_to_int state = Ok v → v ∈ [0; 11; 12; 13; 20; 21].
Proof.
  intros [_ H]%state_to_int_ok_char.
  repeat case_match; set_solver.
Qed.

(** X2: the codes the encoder returns are exactly 0, 11, 12, 13, 20 and
    21: each is the code of some dictionary, and no dictionary is encoded
    as anything else (10 in particular). *)
Theorem state_to_int_image v :
  (∃ state, state_to_int state = Ok v) ↔ v ∈ [0; 11; 12; 13; 20; 21].
Proof.
  split; [intros [state H]; by eapply state_to_int_range|].
  rewrite !elem_of_cons, elem_of_nil.
  intros [->|[->|[->|[->|[->|[->|[]]]]]]].
  - by exists ∅.
  - by exists (<["location" := VStr "air"]> {["underground" := VBool false]}).
  - by exists (<["location" := VStr "hill"]> {["underground" := VBool false]}).
  - by exists (<["location" := VStr "valley"]> {["underground" := VBool false]}).
  - by exists {["underground" := VBool true]}.
  - by exists (<["location" := VStr "burrow"]> {["underground" := VBool true]}).
Qed.

(** X3: a dictionary with any key other than ['underground'] and
    ['location'] is never encoded. *)
Theorem state_to_int_unknown_key state (key : string) :
  key ≠ "underground" → key ≠ "location" → is_Some (state !! key) →
  ∀ v, state_to_int state ≠ Ok v.
Proof.
  intros Hu Hl [x Hx] v [Hempty _]%state_to_int_ok_char.
  apply (f_equal (λ m : gmap string pyval, m !! key)) in Hempty.
  rewrite !lookup_delete_ne, lookup_empty in Hempty by done. congruence.
Qed.

Lemma state_to_int_unknown_key_witness :
  is_Some (({["speed" := VInt 3]} : gmap string pyval) !! "speed")
  ∧ state_to_int {["speed" := VInt 3]} ≠ Ok 0.
Proof.
  split; [eexists; reflexivity|].
  apply (state_to_int_unknown_key {["speed" := VInt 3]} "speed").
  - discriminate.
  - discriminate.
  - eexists. reflexivity.
Defined.

(** X4: [KeyError] is raised exactly when [underground == False] and the
    dictionary has no ['location']; the key it names is ['location']. *)
Theorem state_to_int_key_error state (key : string) :
  state_to_int state = Raise (KeyError key) ↔
  key = "location"
  ∧ eq_bool (get "underground" state) false = true
  ∧ state !! "location" = None.
Proof.
  unfold state_to_int. rewrite interpret_state_cases. cbn zeta.
  destruct (eq_bool (get "underground" state) false).
  - destruct (state !! "location") as [loc|]; [|cbn; naive_solver].
    repeat (destruct (eq_str loc _); [cbn; case_decide; naive_solver|]).
    cbn. case_decide; naive_solver.
  - destruct (eq_bool (get "underground" state) true).
    + destruct (eq_str _ "burrow"); cbn; case_decide; naive_solver.
    + cbn. case_decide; naive_solver.
Qed.

(** X5: encoding ends in one of three ways: a code; [KeyError] for
    ['location']; or the [RuntimeError] that carries what is left of the
    dictionary, which is not empty, is part of the dictionary given and
    has no key ['underground']. *)
Theorem state_to_int_outcomes state :
  (∃ v, state_to_int state = Ok v)
  ∨ state_to_int state = Raise (KeyError "location")
  ∨ (∃ rest, state_to_int state = Raise (RuntimeError (CannotInterpret rest))
             ∧ rest ≠ ∅ ∧ rest ⊆ state ∧ rest !! "underground" = None).
Proof.
  unfold state_to_int.
  destruct (interpret_state state) as [[v rest]|e] eqn:Hi; cbn.
  - destruct (decide (rest = ∅)) as [->|Hne]; [left; by eexists|].
    right. right. exists rest. split; [done|]. split; [done|].
    apply interpret_state_rest in Hi. split.
    + etrans; [done|]. apply delete_subseteq.
    + eapply lookup_weaken_None; [|done]. apply lookup_delete_eq.
  - right. left. rewrite interpret_state_cases in Hi. cbn zeta in Hi.
    repeat case_match; congruence.
Qed.

End StateToInt.

(** * The category queries *)

Section QueryState.

Import Mouse.

Implicit Types (states : list Z) (query : string) (r : list bool) (i : nat).

Lemma np_eq_lookup states (c : Z) i :
  np_eq states c !! i = (λ s, s =? c) <$> states !! i.
Proof. apply list_lookup_fmap. Qed.

Lemma np_and_range_lookup states (lo hi : Z) i :
  np_and (np_le_l lo states) (np_lt_r states hi) !! i
  = (λ s, (lo <=? s) && (s <? hi)) <$> states !! i.
Proof.
  unfold np_and, np_le_l, np_lt_r.
  rewrite lookup_zip_with, !list_lookup_fmap.
  by destruct (states !! i).
Qed.

(** The answer of each query that is known, frame by frame. *)
Lemma query_state_lookup states query r i :
  query_state states query = Ok r →
  r !! i =
  (λ s, if bool_decide (query = "underground") then (10 <=? s) && (s <? 20)
        else if bool_decide (query = "in_air") then s =? 11
        else if bool_decide (query = "on_hill") then s =? 12
        else if bool_decide (query = "in_valley") then s =? 13
        else s =? 21) <$> states !! i.
Proof.
  unfold query_state.
  repeat (case_bool_decide;
          [intros [= <-];
           first [apply np_and_range_lookup | apply np_eq_lookup]|]).
  discriminate.
Qed.

(** X6: a query is answered exactly when it is one of 'underground',
    'in_air', 'on_hill', 'in_valley' and 'in_burrow', with one boolean
    per frame; any other query raises [ValueError] with that query. *)
Theorem query_state_known states query :
  if bool_decide (query ∈ ["underground"; "in_air"; "on_hill"; "in_valley";
                           "in_burrow"])
  then ∃ r, query_state states query = Ok r ∧ length r = length states
  else query_state states query = Raise (ValueError query).
Proof.
  case_bool_decide as Hq.
  - rewrite !elem_of_cons, elem_of_nil in Hq.
    destruct Hq as [->|[->|[->|[->|[->|[]]]]]]; eexists; (split; [done|]);
      unfold np_and, np_eq, np_le_l, np_lt_r;
      rewrite ?length_zip_with, !length_fmap; lia.
  - rewrite !elem_of_cons, elem_of_nil in Hq. unfold query_state.
    repeat (case_bool_decide; [tauto|]). done.
Qed.

(** X7: where 'in_air', 'on_hill' or 'in_valley' holds, the query
    'underground' holds too; where 'in_burrow' holds, 'underground' does
    not: the query of that name tests the overground codes 10..19. *)
Theorem query_state_underground_vs_location states query r ru i :
  query_state states query = Ok r →
  query_state states "underground" = Ok ru →
  r !! i = Some true →
  (query ∈ ["in_air"; "on_hill"; "in_valley"] → ru !! i = Some true)
  ∧ (query = "in_burrow" → ru !! i = Some false).
Proof.
  intros Hr Hu Hi.
  rewrite (query_state_lookup _ _ _ i Hr) in Hi.
  rewrite (query_state_lookup _ _ _ i Hu).
  destruct (states !! i) as [s|]; [|done]. cbn in *.
  injection Hi as Hi. split.
  - rewrite !elem_of_cons, elem_of_nil.
    intros [->|[->|[->|[]]]]; cbn in Hi; apply Z.eqb_eq in Hi as ->; done.
  - intros ->. cbn in Hi. apply Z.eqb_eq in Hi as ->. done.
Qed.

Lemma query_state_underground_vs_location_witness :
  (("in_burrow" : string) ∈ ["in_air"; "on_hill"; "in_valley"] →
   [true; false] !! 1%nat = Some true)
  ∧ (("in_burrow" : string) = "in_burrow" →
     [true; false] !! 1%nat = Some false).
Proof.
  apply (query_state_underground_vs_location [11; 21] "in_burrow"
           [false; true] [true; false] 1).
  - reflexivity.
  - reflexivity.
  - reflexivity.
Defined.

(** X8: the queries 'in_air', 'on_hill', 'in_valley' and 'in_burrow' never
    hold together at a frame. *)
Theorem query_state_exclusive states (query1 query2 : string) r1 r2 i :
  query1 ∈ ["in_air"; "on_hill"; "in_valley"; "in_burrow"] →
  query2 ∈ ["in_air"; "on_hill"; "in_valley"; "in_burrow"] →
  query1 ≠ query2 →
  query_state states query1 = Ok r1 →
  query_state states query2 = Ok r2 →
  r1 !! i = Some true → r2 !! i = Some false.
Proof.
  intros H1 H2 Hne Hr1 Hr2 Hi1.
  rewrite (query_state_lookup _ _ _ i Hr1) in Hi1.
  rewrite (query_state_lookup _ _ _ i Hr2).
  destruct (states !! i) as [s|]; [|done]. cbn in *.
  injection Hi1 as Hi1. f_equal.
  rewrite !elem_of_cons, elem_of_nil in H1, H2.
  destruct H1 as [->|[->|[->|[->|[]]]]];
    destruct H2 as [->|[->|[->|[->|[]]]]];
    try done; cbn in Hi1 |- *;
    apply Z.eqb_eq in Hi1 as ->; done.
Qed.

Lemma query_state_exclusive_witness :
  [false; true] !! 0%nat = Some false.
Proof.
  apply (query_state_exclusive [11; 12] "in_air" "on_hill"
           [true; false] [false; true] 0).
  - set_solver.
  - set_solver.
  - discriminate.
  - reflexivity.
  - reflexivity.
  - reflexivity.
Defined.

End QueryState.

(** * The class [MouseTrack] *)

Section Track.

Import Mouse MouseTrack.

Implicit Types (self : track) (a : list Z) (k v : Z)
  (state : gmap string pyval).

(** The place an index in [-len(a), len(a)) denotes is [k mod len(a)]. *)
Lemma np_setitem_ok_iff a k v (a' : list Z) :
  np_setitem a k v = Ok a' ↔
  - Z.of_nat (length a) ≤ k < Z.of_nat (length a)
  ∧ a' = <[Z.to_nat (k `mod` Z.of_nat (length a)) := v]> a.
Proof.
  unfold np_setitem. cbn zeta.
  destruct (decide (0 ≤ k < Z.of_nat (length a))) as [Hin|Hout].
  - replace ((0 <=? k) && (k <? Z.of_nat (length a))) with true
      by (symmetry; apply andb_true_iff; split;
          [apply Z.leb_le|apply Z.ltb_lt]; lia).
    rewrite Z.mod_small by lia. split.
    + intros [= <-]. split; [lia|done].
    + by intros [_ ->].
  - replace ((0 <=? k) && (k <? Z.of_nat (length a))) with false.
    2:{ symmetry. apply andb_false_iff.
        rewrite Z.leb_gt, Z.ltb_ge. lia. }
    destruct (decide (- Z.of_nat (length a) ≤ k < 0)) as [Hneg|Hfar].
    + replace ((- Z.of_nat (length a) <=? k) && (k <? 0)) with true
        by (symmetry; apply andb_true_iff; split;
            [apply Z.leb_le|apply Z.ltb_lt]; lia).
      replace (k `mod` Z.of_nat (length a)) with (Z.of_nat (length a) + k).
      2:{ apply Z.mod_unique_pos with (q := -1); lia. }
      split.
      * intros [= <-]. split; [lia|done].
      * by intros [_ ->].
    + replace ((- Z.of_nat (length a) <=? k) && (k <? 0)) with false.
      2:{ symmetry. apply andb_false_iff.
          rewrite Z.leb_gt, Z.ltb_ge. lia. }
      split; [discriminate|]. intros [? _]. lia.
Qed.

Lemma set_state_ok_char self k state (self' : track) :
  set_state self k state = Ok self' ↔
  ∃ v, state_to_int state = Ok v
       ∧ - Z.of_nat (length (states self)) ≤ k < Z.of_nat (length (states self))
       ∧ self' = {| pos := pos self;
                    states := <[Z.to_nat (k `mod` Z.of_nat
                                            (length (states self))) := v]>
                                (states self) |}.
Proof.
  unfold set_state. split.
  - destruct (state_to_int state) as [v|e]; cbn; [|discriminate].
    destruct (np_setitem (states self) k v) as [a'|e] eqn:Ha; cbn;
      [|discriminate].
    intros [= <-]. apply np_setitem_ok_iff in Ha as [Hk ->].
    exists v. split; [done|]. split; done.
  - intros (v & -> & Hk & ->). cbn.
    assert (np_setitem (states self) k v
            = Ok (<[Z.to_nat (k `mod` Z.of_nat (length (states self))) := v]>
                    (states self))) as ->
      by (by apply np_setitem_ok_iff).
    done.
Qed.

(** X9: [set_state] succeeds exactly when the state is encoded to a code
    and the frame index lies in [-n, n), [n] being the number of frames;
    it then stores the code at frame [frame_id mod n] and changes nothing
    else. *)
Theorem set_state_ok_iff self k state (self' : track) :
  set_state self k state = Ok self' ↔
  ∃ v, state_to_int state = Ok v
       ∧ - Z.of_nat (length (states self)) ≤ k < Z.of_nat (length (states self))
       ∧ self' = {| pos := pos self;
                    states := <[Z.to_nat (k `mod` Z.of_nat
                                            (length (states self))) := v]>
                                (states self) |}.
Proof. apply set_state_ok_char. Qed.

(** X10: a track built without states holds only valid codes, and
    [set_state] keeps the trajectory, the number of frames and the
    validity of all codes. *)
Theorem set_state_keeps_valid self k state (self' : track) :
  set_state self k state = Ok self' →
  pos self' = pos self
  ∧ length (states self') = length (states self)
  ∧ (Forall (λ c, c ∈ VALID_STATES) (states self) →
     Forall (λ c, c ∈ VALID_STATES) (states self'))
  ∧ ∀ trajectory,
      Forall (λ c, c ∈ VALID_STATES) (states (init trajectory None)).
Proof.
  intros (v & Hv & Hk & ->)%set_state_ok_char. cbn.
  split_and!; [done|by rewrite length_insert| |].
  - intros Hvalid. apply Forall_insert; [done|].
    apply state_to_int_range in Hv. unfold VALID_STATES. set_solver.
  - intros trajectory. apply Forall_replicate. unfold VALID_STATES.
    set_solver.
Qed.

Lemma set_state_keeps_valid_witness :
  let self := init [(0, 0); (1, 0)]%Q None in
  ∃ self', set_state self 1 {["underground" := VBool true]} = Ok self'
           ∧ states self' = [0; 20]
           ∧ length (states self') = length (states self).
Proof.
  intros self. eexists. split; [reflexivity|]. split; [reflexivity|].
  apply (set_state_keeps_valid self 1 {["underground" := VBool true]}).
  reflexivity.
Defined.

(** X11: a track built without states answers [False] at every frame to
    each of the five queries. *)
Theorem init_query_all_false (trajectory : list (Q * Q)) (query : string) :
  query ∈ ["underground"; "in_air"; "on_hill"; "in_valley"; "in_burrow"] →
  MouseTrack.query_state (init trajectory None) query
  = Ok (replicate (length trajectory) false).
Proof.
  intros Hq. unfold MouseTrack.query_state, init. cbn [states].
  pose proof (query_state_known (replicate (length trajectory) 0) query)
    as Hknown.
  rewrite bool_decide_eq_true_2 in Hknown by done.
  destruct Hknown as (r & Hr & Hlen). rewrite Hr. f_equal.
  apply list_eq. intros i. rewrite (query_state_lookup _ _ _ i Hr).
  destruct (decide (i < length trajectory)%nat) as [Hi|Hi].
  - rewrite !lookup_replicate_2 by done. cbn. f_equal.
    by repeat case_bool_decide.
  - rewrite !(proj1 (lookup_replicate_None _ _ _)) by lia. done.
Qed.

Lemma init_query_all_false_witness :
  MouseTrack.query_state (init [(0, 0); (1, 1)]%Q None) "in_burrow"
  = Ok [false; false].
Proof.
  apply (init_query_all_false [(0, 0); (1, 1)]%Q "in_burrow"). set_solver.
Defined.

(** X12: after [set_state], the query 'underground' holds at the frame
    set exactly when the state has [underground == False]: a state with
    [underground == True] is answered [False]. *)
Theorem set_state_then_underground self k state (self' : track) :
  set_state self k state = Ok self' →
  ∃ r, MouseTrack.query_state self' "underground" = Ok r
       ∧ r !! Z.to_nat (k `mod` Z.of_nat (length (states self)))
         = Some (eq_bool (get "underground" state) false).
Proof.
  intros (v & Hv & Hk & ->)%set_state_ok_char.
  eexists. split; [reflexivity|].
  rewrite np_and_range_lookup. cbn.
  rewrite list_lookup_insert_eq.
  2:{ pose proof (Z.mod_pos_bound k (Z.of_nat (length (states self)))). lia. }
  cbn. f_equal.
  apply state_to_int_ok_char in Hv as [_ Hv].
  destruct (eq_bool (get "underground" state) false).
  - by destruct Hv as [[_ ->]|[[_ ->]|[_ ->]]].
  - destruct (eq_bool (get "underground" state) true).
    + by destruct Hv as [[_ ->]|[_ ->]].
    + by destruct Hv as [_ ->].
Qed.

Lemma set_state_then_underground_witness :
  ∃ r, MouseTrack.query_state
         {| pos := [(0, 0); (1, 0)]%Q; states := [0; 21] |} "underground"
       = Ok r
       ∧ r !! 1%nat = Some false.
Proof.
  exact (set_state_then_underground
           (init [(0, 0); (1, 0)]%Q None) (-1)
           (<["location" := VStr "burrow"]> {["underground" := VBool true]})
           {| pos := [(0, 0); (1, 0)]%Q; states := [0; 21] |} eq_refl).
Defined.

End Track.

(** * More on the transitions *)

Section TransitionsMore.

Import Analyzer Dwell.

Variable STATES : gmap Z string.

Implicit Types (mouse_state : list Z) (ks : list nat)
  (transitions : gmap (Z * Z) (list Q)) (e : (Z * Z) * Q)
  (trans : Z * Z) (allowed : option (list Z)).

Lemma events_elem mouse_state time_scale ks : ∀ (last_trans : Z) e,
  e ∈ events mouse_state time_scale last_trans ks →
  ∃ k, k ∈ ks ∧ e.1 = (mouse_state !!! k, mouse_state !!! (k + 1)%nat).
Proof.
  induction ks as [|k ks IH]; intros last_trans e; cbn.
  { by intros ?%elem_of_nil. }
  intros [->|He]%elem_of_cons.
  - exists k. split; [apply list_elem_of_here|done].
  - destruct (IH _ _ He) as (k' & Hk' & Hk'e).
    exists k'. split; [by apply list_elem_of_further|done].
Qed.

(** A change point connects two different codes. *)
Lemma all_events_codes_differ mouse_state time_scale e :
  e ∈ all_events mouse_state time_scale → e.1.1 ≠ e.1.2.
Proof.
  intros (k & Hk & ->)%events_elem.
  apply change_points_elem in Hk as (x & y & Hx & Hy & Hne). cbn.
  rewrite (list_lookup_total_correct _ _ _ Hx).
  replace (k + 1)%nat with (S k) by lia.
  by rewrite (list_lookup_total_correct _ _ _ Hy).
Qed.

(** What the transitions hold under a key, for any allowed codes. *)
Lemma transitions_lookup self mouse_state allowed (len_threshold : Q)
    transitions trans :
  mouse_trajectory_states self = Some mouse_state →
  get_mouse_state_transitions STATES self allowed len_threshold
  = Ok transitions →
  let recorded_events :=
    filter (λ e, recorded (default (STATES_keys STATES) allowed)
                   len_threshold e)
      (all_events mouse_state (time_scale self)) in
  default [] (transitions !! trans) = durations_of trans recorded_events
  ∧ (is_Some (transitions !! trans)
     ↔ durations_of trans recorded_events ≠ []).
Proof.
  intros Hms Hget. rewrite (get_mouse_state_transitions_ok _ _ _ _ _ Hms)
    in Hget. injection Hget as <-. cbn zeta. split.
  - by rewrite foldl_record_lookup, lookup_empty.
  - rewrite foldl_record_is_Some, lookup_empty.
    split; [intros [[? [=]]|?]; done | by right].
Qed.

(** The entries of the transitions. *)
Lemma transitions_entry_facts self mouse_state allowed (len_threshold : Q)
    transitions (a b : Z) (durations : list Q) :
  mouse_trajectory_states self = Some mouse_state →
  get_mouse_state_transitions STATES self allowed len_threshold
  = Ok transitions →
  transitions !! (a, b) = Some durations →
  a ≠ b
  ∧ a ∈ default (STATES_keys STATES) allowed
  ∧ b ∈ default (STATES_keys STATES) allowed
  ∧ durations ≠ []
  ∧ Forall (λ d, (len_threshold < d)%Q) durations.
Proof.
  intros Hms Hget Hab.
  destruct (transitions_lookup _ _ _ _ _ (a, b) Hms Hget) as [Hl Hsome].
  rewrite Hab in Hl, Hsome. cbn in Hl.
  assert (durations ≠ []) as Hne by (rewrite Hl; apply Hsome; eauto).
  assert (∀ d, d ∈ durations →
               ((a, b), d) ∈ all_events mouse_state (time_scale self)
               ∧ a ∈ default (STATES_keys STATES) allowed
               ∧ b ∈ default (STATES_keys STATES) allowed
               ∧ (len_threshold < d)%Q) as Hd.
  { intros d. rewrite Hl, elem_of_durations_of, recorded_true. tauto. }
  destruct durations as [|d0 durations']; [done|].
  destruct (Hd d0 (list_elem_of_here _ _)) as (He & Ha & Hb & _).
  split_and!; [|done..|].
  - by apply all_events_codes_differ in He.
  - apply Forall_forall. intros d Hin. by apply Hd.
Qed.

(** X13: every entry of the transitions connects two different codes,
    both among the allowed codes, and holds a list of durations that is
    not empty and whose items all exceed the threshold. *)
Theorem transitions_entries self mouse_state allowed (len_threshold : Q)
    transitions (a b : Z) (durations : list Q) :
  mouse_trajectory_states self = Some mouse_state →
  get_mouse_state_transitions STATES self allowed len_threshold
  = Ok transitions →
  transitions !! (a, b) = Some durations →
  a ≠ b
  ∧ a ∈ default (STATES_keys STATES) allowed
  ∧ b ∈ default (STATES_keys STATES) allowed
  ∧ durations ≠ []
  ∧ Forall (λ d, (len_threshold < d)%Q) durations.
Proof. apply transitions_entry_facts. Qed.

(** X14: with the allowed codes given, a duration is stored under a
    transition exactly when a change point of that transition has it,
    both codes are among the codes given and the duration strictly
    exceeds the threshold; the table [STATES] plays no part. *)
Theorem transitions_given_states self mouse_state (states : list Z)
    (len_threshold : Q) :
  mouse_trajectory_states self = Some mouse_state →
  ∃ transitions,
    get_mouse_state_transitions STATES self (Some states) len_threshold
    = Ok transitions
    ∧ (∀ trans (d : Q),
         d ∈ default [] (transitions !! trans)
         ↔ (trans, d) ∈ all_events mouse_state (time_scale self)
           ∧ trans.1 ∈ states ∧ trans.2 ∈ states
           ∧ (len_threshold < d)%Q)
    ∧ ∀ STATES' : gmap Z string,
        get_mouse_state_transitions STATES' self (Some states) len_threshold
        = Ok transitions.
Proof.
  intros Hms.
  pose proof (get_mouse_state_transitions_ok STATES self mouse_state
                (Some states) len_threshold Hms) as Hget.
  eexists. split; [exact Hget|]. split.
  - intros trans d.
    destruct (transitions_lookup _ _ _ _ _ trans Hms Hget) as [-> _].
    rewrite elem_of_durations_of, recorded_true. done.
  - intros STATES'. by rewrite (get_mouse_state_transitions_ok _ _ _ _ _ Hms).
Qed.


Lemma change_points_replicate (n : nat) (c : Z) :
  change_points (replicate n c) = [].
Proof.
  apply elem_of_nil_inv. intros k (x & y & Hx & Hy & Hne)%change_points_elem.
  apply lookup_replicate_1 in Hx as [-> _].
  apply lookup_replicate_1 in Hy as [-> _]. done.
Qed.

(** X15: a sequence that never changes (an empty one, a single frame, any
    number of frames of one code) gives no transitions, whatever the
    allowed codes and the threshold. *)
Theorem transitions_constant (n : nat) (c : Z) (time_scale : Q) allowed
    (len_threshold : Q) :
  get_mouse_state_transitions STATES
    {| mouse_trajectory_states := Some (replicate n c);
       time_scale := time_scale |} allowed len_threshold
  = Ok ∅.
Proof.
  rewrite (get_mouse_state_transitions_ok _ _ (replicate n c)) by done.
  unfold all_events. by rewrite change_points_replicate.
Qed.

Lemma np_diff_cons (x y : Z) (a : list Z) :
  np_diff (x :: y :: a) = (y - x) :: np_diff (y :: a).
Proof.
  unfold np_diff. cbn [length drop]. rewrite !Nat.sub_succ, !Nat.sub_0_r.
  done.
Qed.

Lemma np_nonzero_from_S (b : list bool) : ∀ i,
  np_nonzero_from (S i) b = S <$> np_nonzero_from i b.
Proof.
  induction b as [|[] b IH]; intros i; cbn; [done| |]; by rewrite IH.
Qed.

(** The change points of a sequence, from those of its tail. *)
Lemma change_points_cons (x y : Z) (a : list Z) :
  change_points (x :: y :: a)
  = (if decide (x = y) then [] else [0%nat])
    ++ (S <$> change_points (y :: a)).
Proof.
  unfold change_points, np_nonzero. rewrite np_diff_cons, fmap_cons.
  cbn [np_nonzero_from]. rewrite np_nonzero_from_S.
  destruct (decide (x = y)) as [->|Hne].
  - by rewrite Z.sub_diag.
  - replace (y - x =? 0) with false; [done|].
    symmetry. apply Z.eqb_neq. lia.
Qed.

Lemma change_points_run (n : nat) (x y : Z) (a : list Z) :
  x ≠ y →
  change_points (replicate (S n) x ++ y :: a)
  = n :: ((λ k, S n + k)%nat <$> change_points (y :: a)).
Proof.
  intros Hne. induction n as [|n IH].
  - cbn [replicate app]. rewrite change_points_cons, decide_False by done.
    done.
  - change (replicate (S (S n)) x ++ y :: a)
      with (x :: (replicate (S n) x ++ y :: a)).
    change (replicate (S n) x ++ y :: a)
      with (x :: (replicate n x ++ y :: a)) at 1.
    rewrite change_points_cons, decide_True by done.
    change (x :: (replicate n x ++ y :: a))
      with (replicate (S n) x ++ y :: a).
    rewrite IH. cbn [app fmap list_fmap]. f_equal.
    rewrite <- list_fmap_compose. done.
Qed.

(** X16: the dwell before the first change point is measured from frame
    0 to the index of the change, the later ones from change to change:
    for [n + 1] frames of a code [x], then [m + 1] frames of a code [y],
    then a code [z], the first two events are [(x, y)] with duration
    [n * time_scale] and [(y, z)] with duration [(m + 1) * time_scale]. *)
Theorem first_dwell_counts_from_zero (n m : nat) (x y z : Z) (a : list Z)
    (time_scale : Q) :
  x ≠ y → y ≠ z →
  ∃ d1 d2 es,
    all_events (replicate (S n) x ++ replicate (S m) y ++ z :: a) time_scale
    = ((x, y), d1) :: ((y, z), d2) :: es
    ∧ (d1 == inject_Z (Z.of_nat n) * time_scale)%Q
    ∧ (d2 == inject_Z (Z.of_nat (S m)) * time_scale)%Q.
Proof.
  intros Hxy Hyz. unfold all_events.
  change (replicate (S m) y ++ z :: a)
    with (y :: (replicate m y ++ z :: a)).
  rewrite change_points_run by done.
  change (y :: (replicate m y ++ z :: a))
    with (replicate (S m) y ++ z :: a).
  rewrite change_points_run by done.
  cbn [fmap list_fmap events].
  do 3 eexists. split; [|split].
  - f_equal; [|f_equal].
    + f_equal. f_equal.
      * rewrite lookup_total_app_l by (rewrite length_replicate; lia).
        apply list_lookup_total_correct, lookup_replicate_2. lia.
      * rewrite lookup_total_app_r by (rewrite length_replicate; lia).
        rewrite length_replicate.
        replace (n + 1 - S n)%nat with 0%nat by lia. done.
    + f_equal. f_equal.
      * rewrite lookup_total_app_r by (rewrite length_replicate; lia).
        rewrite length_replicate.
        rewrite lookup_total_app_l by (rewrite length_replicate; lia).
        apply list_lookup_total_correct, lookup_replicate_2. lia.
      * rewrite lookup_total_app_r by (rewrite length_replicate; lia).
        rewrite length_replicate.
        rewrite lookup_total_app_r by (rewrite length_replicate; lia).
        rewrite length_replicate.
        replace (S n + m + 1 - S n - S m)%nat with 0%nat by lia. done.
  - by rewrite Z.sub_0_r.
  - replace (Z.of_nat (S n + m) - Z.of_nat n) with (Z.of_nat (S m)) by lia.
    done.
Qed.

Lemma first_dwell_counts_from_zero_witness :
  ∃ d1 d2 es,
    all_events [10; 10; 10; 11; 11; 12] 1
    = ((10, 11), d1) :: ((11, 12), d2) :: es
    ∧ (d1 == inject_Z 2 * 1)%Q ∧ (d2 == inject_Z 2 * 1)%Q.
Proof.
  apply (first_dwell_counts_from_zero 2 1 10 11 12 [] 1); discriminate.
Defined.

End TransitionsMore.

Section TransitionsMoreAtTables.

Import Analyzer Dwell Tables.

Lemma transitions_entries_witness :
  10 ≠ 11
  ∧ 10 ∈ default (STATES_keys STATES_reference) None
  ∧ 11 ∈ default (STATES_keys STATES_reference) None
  ∧ [2%Q] ≠ []
  ∧ Forall (λ d, (0 < d)%Q) [2%Q].
Proof.
  apply (transitions_entries STATES_reference
           {| mouse_trajectory_states := Some [10; 10; 10; 11; 11; 12];
              time_scale := 1 |} [10; 10; 10; 11; 11; 12] None 0
           (<[(10, 11) := [2%Q]]> {[(11, 12) := [2%Q]]}) 10 11 [2%Q]).
  - reflexivity.
  - reflexivity.
  - reflexivity.
Defined.

Lemma transitions_given_states_witness :
  ∃ transitions,
    get_mouse_state_transitions STATES_reference
      {| mouse_trajectory_states := Some [10; 10; 11; 30; 30; 31];
         time_scale := 1 |} (Some [30; 31]) 0
    = Ok transitions
    ∧ ∀ trans (d : Q),
        d ∈ default [] (transitions !! trans)
        ↔ (trans, d) ∈ all_events [10; 10; 11; 30; 30; 31] 1
          ∧ trans.1 ∈ [30; 31] ∧ trans.2 ∈ [30; 31] ∧ (0 < d)%Q.
Proof.
  destruct (transitions_given_states STATES_reference
              {| mouse_trajectory_states := Some [10; 10; 11; 30; 30; 31];
                 time_scale := 1 |} [10; 10; 11; 30; 30; 31] [30; 31] 0
              eq_refl) as (transitions & Hget & Hchar & _).
  exists transitions. split; [exact Hget|exact Hchar].
Defined.

End TransitionsMoreAtTables.

(** * More on the transition graph *)

Section GraphMore.

Import Analyzer Dwell.

Variable STATES : gmap Z string.

Implicit Types (g : graph) (nodes : gmap string Q)
  (items : list ((Z * Z) * list Q)) (transitions : gmap (Z * Z) (list Q))
  (n : string).

(** The first loop either meets only codes of the table, or raises
    [KeyError] at a code of some item that is no key of the table. *)
Lemma graph_loop_outcome items : ∀ g nodes,
  Forall (known_item STATES) items
  ∨ ∃ item code,
      item ∈ items ∧ (code = item.1.1 ∨ code = item.1.2)
      ∧ STATES !! code = None
      ∧ graph_loop STATES items (g, nodes) = Raise (KeyErrorCode code).
Proof.
  induction items as [|item items IH]; intros g nodes; [by left|].
  destruct (STATES !! item.1.1) as [u|] eqn:Hu.
  - destruct (STATES !! item.1.2) as [v|] eqn:Hv.
    + assert (known_item STATES item) as Hitem by (split; eauto).
      destruct (graph_step_ok STATES g nodes item Hitem)
        as (g1 & nodes1 & Hstep & _).
      destruct (IH g1 nodes1) as [Hall|(item' & code & Hin & Hc & Hn & Hr)].
      * left. by apply Forall_cons.
      * right. exists item', code. split_and!; [by right|done..|].
        cbn [graph_loop]. by rewrite Hstep.
    + right. exists item, item.1.2. split_and!; [by left|by right|done|].
      destruct item as [[a b] lengths]. cbn in *.
      unfold graph_step, STATES_get. cbn. by rewrite Hu, Hv.
  - right. exists item, item.1.1. split_and!; [by left|by left|done|].
    destruct item as [[a b] lengths]. cbn in *.
    unfold graph_step, STATES_get. cbn. by rewrite Hu.
Qed.

Lemma transition_graph_outcome transitions :
  (map_Forall (λ trans lengths, known_item STATES (trans, lengths))
     transitions
   ∧ ∃ g, transition_graph STATES transitions = Ok g
          ∧ Some <$> graph_edges g
            = edge_of STATES <$> map_to_list transitions)
  ∨ ∃ trans lengths code,
      transitions !! trans = Some lengths
      ∧ (code = trans.1 ∨ code = trans.2)
      ∧ STATES !! code = None
      ∧ transition_graph STATES transitions = Raise (KeyErrorCode code).
Proof.
  destruct (graph_loop_outcome (map_to_list transitions) empty_graph ∅)
    as [Hall|([trans lengths] & code & Hin & Hc & Hn & Hr)].
  - left. assert (map_Forall (λ trans lengths,
                    known_item STATES (trans, lengths)) transitions) as Hk.
    { intros trans lengths H%elem_of_map_to_list.
      by apply (proj1 (Forall_forall _ _) Hall (trans, lengths)). }
    split; [done|]. by apply transition_graph_ok.
  - right. exists trans, lengths, code.
    split_and!; [by apply elem_of_map_to_list|done..|].
    unfold transition_graph. by rewrite Hr.
Qed.

(** X17: building the graph either succeeds, exactly when every code of
    the transitions is a key of the table, with one edge per item of the
    transitions; or raises [KeyError] for a code of the transitions that
    is no key of the table. *)
Theorem transition_graph_outcomes transitions :
  (map_Forall (λ trans lengths, known_item STATES (trans, lengths))
     transitions
   ∧ ∃ g, transition_graph STATES transitions = Ok g
          ∧ Some <$> graph_edges g
            = edge_of STATES <$> map_to_list transitions)
  ∨ ∃ trans lengths code,
      transitions !! trans = Some lengths
      ∧ (code = trans.1 ∨ code = trans.2)
      ∧ STATES !! code = None
      ∧ transition_graph STATES transitions = Raise (KeyErrorCode code).
Proof. apply transition_graph_outcome. Qed.

(** The transitions of the default allowed codes hold only keys of the
    table. *)
Lemma default_transitions_known self mouse_state (len_threshold : Q)
    transitions :
  mouse_trajectory_states self = Some mouse_state →
  get_mouse_state_transitions STATES self None len_threshold
  = Ok transitions →
  map_Forall (λ trans lengths, known_item STATES (trans, lengths))
    transitions.
Proof.
  intros Hms Hget [a b] lengths Hl.
  destruct (transitions_entry_facts STATES _ _ _ _ _ _ _ _ Hms Hget Hl)
    as (_ & Ha & Hb & _).
  split; by apply elem_of_STATES_keys.
Qed.

(** X18: with the allowed codes at their default, the graph of a present
    trajectory is always returned: no code of the recorded transitions
    is missing from the table. When the trajectory is missing, the
    [RuntimeError] of the transitions is raised, whatever the arguments. *)
Theorem get_mouse_transition_graph_default self (len_threshold : Q) :
  match mouse_trajectory_states self with
  | Some mouse_state =>
      ∃ g, get_mouse_transition_graph STATES self None len_threshold = Ok g
  | None =>
      ∀ allowed : option (list Z),
        get_mouse_transition_graph STATES self allowed len_threshold
        = Raise (RuntimeError TrajectoryMissing)
  end.
Proof.
  destruct (mouse_trajectory_states self) as [mouse_state|] eqn:Hms.
  - unfold get_mouse_transition_graph.
    pose proof (get_mouse_state_transitions_ok STATES self mouse_state None
                  len_threshold Hms) as Hget.
    rewrite Hget. cbn [mbind result_bind].
    destruct (transition_graph_ok STATES _
                (default_transitions_known _ _ _ _ Hms Hget)) as (g & Hg & _).
    by exists g.
  - intros allowed.
    unfold get_mouse_transition_graph, get_mouse_state_transitions.
    by rewrite Hms.
Qed.


Lemma touch_node_is_Some n (m : gmap string (option Q)) (n' : string) :
  is_Some (touch_node n m !! n') ↔ n' = n ∨ is_Some (m !! n').
Proof.
  unfold touch_node. destruct (m !! n) as [x|] eqn:Hn.
  - split; [by right|]. intros [->|?]; [by eexists|done].
  - destruct (decide (n' = n)) as [->|Hne].
    + rewrite lookup_insert_eq. split; [by left|by eexists].
    + rewrite lookup_insert_ne by done. split; [by right|].
      by intros [?|?].
Qed.

Lemma touch_node_no_duration n (m : gmap string (option Q)) :
  (∀ n' x, m !! n' = Some x → x = None) →
  ∀ n' x, touch_node n m !! n' = Some x → x = None.
Proof.
  intros Hm n' x. unfold touch_node. destruct (m !! n) eqn:Hn; [apply Hm|].
  destruct (decide (n' = n)) as [->|Hne].
  - rewrite lookup_insert_eq. congruence.
  - rewrite lookup_insert_ne by done. apply Hm.
Qed.

(** What the first loop leaves: the nodes of the graph are the categories
    of the codes of the items, none with a duration yet; the dictionary
    [nodes] has the categories of the codes a transition starts from. *)
Lemma graph_loop_nodes items : ∀ g nodes g' nodes',
  graph_loop STATES items (g, nodes) = Ok (g', nodes') →
  (∀ n, is_Some (graph_nodes g' !! n)
        ↔ is_Some (graph_nodes g !! n)
          ∨ ∃ item, item ∈ items
                    ∧ (STATES !! item.1.1 = Some n
                       ∨ STATES !! item.1.2 = Some n))
  ∧ (∀ n, is_Some (nodes' !! n)
          ↔ is_Some (nodes !! n)
            ∨ ∃ item, item ∈ items ∧ STATES !! item.1.1 = Some n)
  ∧ ((∀ n x, graph_nodes g !! n = Some x → x = None) →
     ∀ n x, graph_nodes g' !! n = Some x → x = None).
Proof.
  induction items as [|item items IH]; intros g nodes g' nodes'.
  { intros [= <- <-]. split_and!; [| |done]; intros n;
      (split; [by left|]); intros [?|(? & ?%elem_of_nil & _)]; done. }
  cbn [graph_loop].
  destruct (graph_step STATES (g, nodes) item) as [[g1 nodes1]|exn] eqn:Hstep;
    cbn [mbind result_bind]; [|discriminate].
  intros (Hg & Hn & Hd)%IH.
  destruct item as [[a b] lengths]. unfold graph_step, STATES_get in Hstep.
  cbn in Hstep.
  destruct (STATES !! a) as [u|] eqn:Hu; cbn in Hstep; [|discriminate].
  destruct (STATES !! b) as [v|] eqn:Hv; cbn in Hstep; [|discriminate].
  injection Hstep as <- <-. cbn in *.
  split_and!.
  - intros n. rewrite Hg, !touch_node_is_Some. split.
    + intros [[->|[->|?]]|(item & Hin & Hitem)].
      * right. exists (a, b, lengths). split; [by left|by right].
      * right. exists (a, b, lengths). split; [by left|by left].
      * by left.
      * right. exists item. split; [by right|done].
    + intros [?|(item & [->|Hin]%elem_of_cons & Hitem)].
      * left. by right; right.
      * left. cbn in Hitem. destruct Hitem as [Hi|Hi].
        -- right. left. congruence.
        -- left. congruence.
      * right. by exists item.
  - intros n. rewrite Hn. split.
    + intros [Hsome|(item & Hin & Hitem)].
      * destruct (decide (n = u)) as [->|Hne].
        -- right. exists (a, b, lengths). split; [by left|done].
        -- left. by rewrite lookup_insert_ne in Hsome.
      * right. exists item. split; [by right|done].
    + intros [Hsome|(item & [->|Hin]%elem_of_cons & Hitem)].
      * left. destruct (decide (n = u)) as [->|Hne].
        -- rewrite lookup_insert_eq. by eexists.
        -- by rewrite lookup_insert_ne.
      * left. cbn in Hitem. replace n with u by congruence.
        rewrite lookup_insert_eq. by eexists.
      * right. by exists item.
  - intros Hnone. apply Hd. by do 2 apply touch_node_no_duration.
Qed.

(** The second loop sets the duration of the nodes it goes through and
    leaves the others as they are. *)
Lemma foldl_add_node_lookup (l : list (string * Q)) : ∀ g n,
  (is_Some (graph_nodes (foldl (λ g item, add_node g item.1 item.2) g l) !! n)
   ↔ n ∈ l.*1 ∨ is_Some (graph_nodes g !! n))
  ∧ ((∃ d, graph_nodes (foldl (λ g item, add_node g item.1 item.2) g l) !! n
           = Some (Some d))
     ↔ n ∈ l.*1 ∨ ∃ d, graph_nodes g !! n = Some (Some d)).
Proof.
  induction l as [|[n0 d0] l IH]; intros g n.
  { cbn. split; (split; [by right|]); intros [?%elem_of_nil|?]; done. }
  cbn [foldl fmap list_fmap fst snd].
  destruct (IH (add_node g n0 d0) n) as [IH1 IH2]. rewrite IH1, IH2.
  cbn [add_node graph_nodes]. rewrite elem_of_cons.
  destruct (decide (n = n0)) as [->|Hne].
  - rewrite lookup_insert_eq. split; split; try (intros _; by left; left).
    + intros _. right. by eexists.
    + intros _. right. by eexists.
  - rewrite lookup_insert_ne by done. split; tauto.
Qed.

Lemma transition_graph_nodes transitions g n :
  transition_graph STATES transitions = Ok g →
  (is_Some (graph_nodes g !! n)
   ↔ ∃ trans lengths, transitions !! trans = Some lengths
                      ∧ (STATES !! trans.1 = Some n
                         ∨ STATES !! trans.2 = Some n))
  ∧ ((∃ d, graph_nodes g !! n = Some (Some d))
     ↔ ∃ trans lengths, transitions !! trans = Some lengths
                        ∧ STATES !! trans.1 = Some n).
Proof.
  unfold transition_graph.
  destruct (graph_loop STATES (map_to_list transitions) (empty_graph, ∅))
    as [[g0 nodes]|exn] eqn:Hloop; cbn [mbind result_bind]; [|discriminate].
  intros [= <-].
  apply graph_loop_nodes in Hloop as (Hg & Hn & Hd).
  destruct (foldl_add_node_lookup (map_to_list nodes) g0 n) as [H1 H2].
  assert (n ∈ (map_to_list nodes).*1 ↔ is_Some (nodes !! n)) as Hdom.
  { rewrite list_elem_of_fmap. split.
    - intros ([n' d] & -> & H%elem_of_map_to_list). by eexists.
    - intros [d H]. exists (n, d). by rewrite elem_of_map_to_list. }
  assert (∀ P : (Z * Z) * list Q → Prop,
            (∃ item, item ∈ map_to_list transitions ∧ P item)
            ↔ ∃ trans lengths, transitions !! trans = Some lengths
                               ∧ P (trans, lengths)) as Hitems.
  { intros P. split.
    - intros ([trans lengths] & H%elem_of_map_to_list & HP). eauto.
    - intros (trans & lengths & H & HP). exists (trans, lengths).
      by rewrite elem_of_map_to_list. }
  split.
  - rewrite H1, Hdom, Hn, Hg, lookup_empty.
    cbn [empty_graph graph_nodes]. rewrite lookup_empty.
    rewrite <- (Hitems (λ item, STATES !! item.1.1 = Some n
                                ∨ STATES !! item.1.2 = Some n)).
    split.
    + intros [[[? [=]]|(item & ? & ?)]|[[? [=]]|?]]; [|done].
      exists item. split; [done|by left].
    + intros ?. right. by right.
  - rewrite H2, Hdom, Hn, lookup_empty.
    rewrite <- (Hitems (λ item, STATES !! item.1.1 = Some n)).
    split.
    + intros [[[? [=]]|?]|[d Hdn]]; [done|].
      apply Hd in Hdn; [done|].
      intros n' x. cbn. by rewrite lookup_empty.
    + intros ?. left. by right.
Qed.

(** X20: the nodes of the graph are the categories of the codes of the
    transitions; a node carries a duration exactly when some transition
    starts from a code of its category, so a category that is only ever
    entered is a node without duration. *)
Theorem transition_graph_node_durations transitions g n :
  transition_graph STATES transitions = Ok g →
  (is_Some (graph_nodes g !! n)
   ↔ ∃ trans lengths, transitions !! trans = Some lengths
                      ∧ (STATES !! trans.1 = Some n
                         ∨ STATES !! trans.2 = Some n))
  ∧ ((∃ d, graph_nodes g !! n = Some (Some d))
     ↔ ∃ trans lengths, transitions !! trans = Some lengths
                        ∧ STATES !! trans.1 = Some n).
Proof. apply transition_graph_nodes. Qed.

(** The rate of an edge whose list of durations is not empty is a
    number or an infinity. *)
Lemma rate_of_nonempty (lengths : list Q) :
  lengths ≠ [] → np_one_over (np_mean lengths) ≠ NaN.
Proof.
  intros Hne. destruct lengths as [|d lengths]; [done|].
  cbn [np_mean np_one_over]. by destruct (Qeq_bool _ 0).
Qed.

(** X19: every edge of the graph of a present trajectory counts at
    least one transition, and its rate is never the undefined value
    [nan]: no edge is made from an empty list of durations, whatever
    the threshold and the codes asked for. *)
Theorem graph_rates_defined self mouse_state (allowed : option (list Z))
    (len_threshold : Q) g :
  mouse_trajectory_states self = Some mouse_state →
  get_mouse_transition_graph STATES self allowed len_threshold = Ok g →
  Forall (λ e, (1 ≤ edge_count e)%nat ∧ edge_rate e ≠ NaN)
         (graph_edges g).
Proof.
  intros Hms. unfold get_mouse_transition_graph.
  destruct (get_mouse_state_transitions STATES self allowed len_threshold)
    as [transitions|exn] eqn:Hget; cbn [mbind result_bind]; [|discriminate].
  intros Hg.
  destruct (transition_graph_outcome transitions)
    as [(_ & g' & Hg' & Hedges)|(? & ? & ? & _ & _ & _ & Hr)];
    [|congruence].
  assert (g' = g) as -> by congruence.
  apply Forall_forall. intros e [i Hi]%list_elem_of_lookup.
  apply (f_equal (λ l, l !! i)) in Hedges.
  rewrite !list_lookup_fmap, Hi in Hedges. cbn in Hedges.
  destruct (map_to_list transitions !! i) as [[[a b] lengths]|] eqn:Hitem;
    [|discriminate].
  apply list_elem_of_lookup_2, elem_of_map_to_list in Hitem.
  destruct (transitions_entry_facts STATES _ _ _ _ _ _ _ _ Hms Hget Hitem)
    as (_ & _ & _ & Hne & _).
  cbn in Hedges. unfold edge_of in Hedges. cbn in Hedges.
  destruct (STATES !! a) as [u|]; [|discriminate].
  destruct (STATES !! b) as [v|]; [|discriminate].
  cbn in Hedges. injection Hedges as Hedge. subst e. cbn. split.
  - destruct lengths; [done|]. cbn. lia.
  - by apply rate_of_nonempty.
Qed.

End GraphMore.

Section GraphMoreAtTables.

Import Analyzer Dwell Tables.

Lemma graph_rates_defined_witness :
  ∃ g, get_mouse_transition_graph STATES_coarse
         {| mouse_trajectory_states := Some [11; 11; 11; 21];
            time_scale := 1 |} None 0
       = Ok g
       ∧ Forall (λ e, (1 ≤ edge_count e)%nat ∧ edge_rate e ≠ NaN)
                (graph_edges g).
Proof.
  eexists. split; [reflexivity|].
  eapply (graph_rates_defined STATES_coarse
            {| mouse_trajectory_states := Some [11; 11; 11; 21];
               time_scale := 1 |} [11; 11; 11; 21] None 0).
  - reflexivity.
  - reflexivity.
Defined.

Lemma transition_graph_node_durations_witness :
  ∃ g, transition_graph STATES_reference {[(10, 11) := [0%Q]]} = Ok g
       ∧ is_Some (graph_nodes g !! "air")
       ∧ ¬ ∃ d, graph_nodes g !! "air" = Some (Some d).
Proof.
  pose (g := match transition_graph STATES_reference {[(10, 11) := [0%Q]]}
             with Ok g => g | Raise _ => empty_graph end).
  assert (transition_graph STATES_reference {[(10, 11) := [0%Q]]} = Ok g)
    as Hg by (vm_compute; reflexivity).
  destruct (transition_graph_node_durations STATES_reference
              {[(10, 11) := [0%Q]]} g "air" Hg) as [Hnode Hduration].
  exists g. split; [exact Hg|]. split.
  - apply Hnode. exists (10, 11), [0%Q]. split; [reflexivity|].
    right. reflexivity.
  - intros (trans & lengths & Hl & Hs)%Hduration.
    apply lookup_singleton_Some in Hl as [<- _]. discriminate Hs.
Defined.

End GraphMoreAtTables.

(** * The self-test of the codec *)

Section SelfTest.

Import Mouse.

(** X21: the self-test of the module cannot fail, over the values 0..99
    it runs on or over any other list of values: every decoded state is
    empty, so each value is skipped and the codes are never compared. *)
Theorem test_state_conversion_vacuous (values : list Z) :
  test_state_conversion = Ok tt
  ∧ foldl (λ acc value, _ ← acc; test_state_conversion_at value)
          (Ok tt) values = Ok tt
  ∧ Forall (λ value, int_to_state value = ∅) values.
Proof.
  assert (∀ l : list Z,
            foldl (λ acc value, _ ← acc; test_state_conversion_at value)
                  (Ok tt) l = Ok tt) as Hfold.
  { intros l. induction l as [|v l IH] using rev_ind; [done|].
    rewrite foldl_app. cbn. rewrite IH. cbn.
    apply test_state_conversion_at_ok. }
  split_and!; [apply Hfold|apply Hfold|].
  apply Forall_forall. intros v _. apply int_to_state_empty.
Qed.

End SelfTest.

(** * Contiguous regions *)

Section ContiguousRegions.

Import Analyzer Utils.

Implicit Types (condition : list bool) (i p : nat) (prev b : bool).

Lemma covered_nil p : ¬ covered [] p.
Proof. by intros (s & e & ?%elem_of_nil & _). Qed.

Lemma separated_weaken (lo lo' : nat) (regions : list (nat * nat)) :
  (lo' ≤ lo)%nat → separated lo regions → separated lo' regions.
Proof.
  destruct regions as [|[s e] regions]; cbn; [done|].
  intros ? [? ?]. split; [lia|done].
Qed.

Lemma covered_cons (s e : nat) (regions : list (nat * nat)) p :
  covered ((s, e) :: regions) p ↔ (s ≤ p < e)%nat ∨ covered regions p.
Proof.
  unfold covered. split.
  - intros (s' & e' & [[= -> ->]|Hin]%elem_of_cons & Hp); [by left|].
    right. by exists s', e'.
  - intros [Hp|(s' & e' & Hin & Hp)].
    + exists s, e. split; [by left|done].
    + exists s', e'. split; [by right|done].
Qed.

(** The regions the boundaries give, by induction on the array: with
    [prev] false the boundaries are the rows of the regions; with [prev]
    true the first boundary closes the region that is open. *)
Lemma boundaries_from_spec condition : ∀ i prev,
  ∃ (head : list nat) (regions : list (nat * nat)),
    boundaries_from i prev condition
    = head ++ mjoin ((λ r, [r.1; r.2]) <$> regions)
    ∧ reshape_pairs (mjoin ((λ r, [r.1; r.2]) <$> regions)) = Ok regions
    ∧ (if prev then ∃ e, head = [e] ∧ (i ≤ e ≤ i + length condition)%nat
                         ∧ (∀ p, (i ≤ p)%nat →
                              ((p < e)%nat ∨ covered regions p
                               ↔ condition !! (p - i)%nat = Some true))
                         ∧ separated (S e) regions
       else head = []
            ∧ (∀ p, (i ≤ p)%nat →
                 (covered regions p ↔ condition !! (p - i)%nat = Some true))
            ∧ separated i regions)
    ∧ Forall (λ r, (i ≤ r.1 < r.2)%nat ∧ (r.2 ≤ i + length condition)%nat)
             regions.
Proof.
  induction condition as [|b condition IH]; intros i prev.
  { destruct prev.
    - exists [i], []. split; [done|]. split; [done|]. split; [|done].
      exists i. split; [done|]. split; [cbn; lia|]. split; [|done].
      intros p Hp. split; [|done].
      intros [?|?%covered_nil]; [lia|done].
    - exists [], []. split; [done|]. split; [done|]. split; [|done].
      split; [done|]. split; [|done].
      intros p _. split; [by intros ?%covered_nil|done]. }
  cbn [boundaries_from length].
  destruct (IH (S i) b) as (head & regions & Hb & Hpairs & Hspec & Hbounds).
  rewrite Hb.
  assert (∀ p, (i < p)%nat →
               (b :: condition) !! (p - i)%nat = condition !! (p - S i)%nat)
    as Hshift.
  { intros p Hp. replace (p - i)%nat with (S (p - S i)) by lia. done. }
  assert (Forall (λ r, (i ≤ r.1 < r.2)%nat
                       ∧ (r.2 ≤ i + S (length condition))%nat) regions)
    as Hbounds'.
  { eapply Forall_impl; [done|]. cbn. intros r ?. lia. }
  assert (∀ s e, (s, e) ∈ regions → (S i ≤ s)%nat) as Hstart.
  { intros s e Hin. apply (proj1 (Forall_forall _ _) Hbounds) in Hin.
    cbn in Hin. lia. }
  destruct prev, b; cbn [xorb app].
  - (* inside a region, still inside *)
    destruct Hspec as (e & -> & He & Hcov & Hsep).
    exists [e], regions. split; [done|]. split; [done|]. split; [|done].
    exists e. split; [done|]. split; [lia|]. split; [|done].
    intros p Hp. destruct (decide (p = i)) as [->|Hne].
    + rewrite Nat.sub_diag. cbn. split; [done|]. intros _. left. lia.
    + rewrite Hshift by lia. apply Hcov. lia.
  - (* the region that is open ends at [i] *)
    destruct Hspec as (-> & Hcov & Hsep).
    exists [i], regions. split; [done|]. split; [done|]. split; [|done].
    exists i. split; [done|]. split; [lia|]. split; [|done].
    intros p Hp. destruct (decide (p = i)) as [->|Hne].
    + rewrite Nat.sub_diag. cbn. split; [|done].
      intros [?|(s & e & Hin & Hse)]; [lia|].
      apply Hstart in Hin. lia.
    + rewrite Hshift by lia. rewrite <- Hcov by lia.
      split; [intros [?|?]; [lia|done] | by right].
  - (* a region starts at [i] *)
    destruct Hspec as (e & -> & He & Hcov & Hsep).
    exists [], ((i, e) :: regions). split; [done|].
    split.
    { change (reshape_pairs
                (i :: e :: mjoin ((λ r : nat * nat, [r.1; r.2]) <$> regions))
              = Ok ((i, e) :: regions)).
      cbn [reshape_pairs]. by rewrite Hpairs. }
    split.
    + split; [done|]. split; [|cbn; split; [lia|done]].
      intros p Hp. rewrite covered_cons.
      destruct (decide (p = i)) as [->|Hne].
      * rewrite Nat.sub_diag. cbn. split; [done|]. intros _. left. lia.
      * rewrite Hshift by lia. rewrite <- Hcov by lia.
        split; (intros [?|?]; [left; lia|by right]).
    + apply Forall_cons. split; [cbn; lia|done].
  - (* outside, still outside *)
    destruct Hspec as (-> & Hcov & Hsep).
    exists [], regions. split; [done|]. split; [done|]. split; [|done].
    split; [done|]. split; [|by apply (separated_weaken (S i)); [lia|]].
    intros p Hp. destruct (decide (p = i)) as [->|Hne].
    + rewrite Nat.sub_diag. cbn. split; [|done].
      intros (s & e & Hin & Hse). apply Hstart in Hin. lia.
    + rewrite Hshift by lia. apply Hcov. lia.
Qed.

Lemma default_last_cons {A} (x y : A) (l : list A) :
  default x (last (y :: l)) = default y (last l).
Proof. rewrite last_cons. by destruct (last l). Qed.

Lemma astype_diff_nonzero (b c : bool) :
  negb ((if c then 1 else 0) - (if b then 1 else 0) =? 0) = xorb b c.
Proof. by destruct b, c. Qed.

(** The boundaries after the first item, as numpy computes them: the
    places of the non-zero differences, then the length of the array
    when its last item holds. *)
Lemma boundaries_from_diff condition : ∀ b i,
  boundaries_from (S i) b condition
  = ((λ k, S i + k)%nat
       <$> np_nonzero ((λ x, negb (x =? 0))
                         <$> np_diff (astype_int (b :: condition))))
    ++ (if default b (last condition)
        then [(S i + length condition)%nat] else []).
Proof.
  unfold np_nonzero.
  induction condition as [|c condition IH]; intros b i.
  { cbn. rewrite Nat.add_0_r. by destruct b. }
  cbn [boundaries_from]. rewrite IH.
  unfold astype_int. rewrite !fmap_cons, np_diff_cons, fmap_cons.
  cbn [np_nonzero_from]. rewrite astype_diff_nonzero.
  rewrite np_nonzero_from_S.
  rewrite default_last_cons.
  cbn [length]. replace (S i + S (length condition))%nat
    with (S (S i) + length condition)%nat by lia.
  rewrite app_assoc. f_equal.
  destruct (xorb b c); cbn [fmap list_fmap app];
    rewrite <- list_fmap_compose; [f_equal; [lia|]|];
    apply list_fmap_ext; intros; cbn; lia.
Qed.

Lemma lookup_last_cons {A} (x : A) (l : list A) :
  (x :: l) !! length l = Some (default x (last l)).
Proof.
  revert x. induction l as [|y l IH]; intros x; [done|].
  cbn [length]. change ((x :: y :: l) !! S (length l))
    with ((y :: l) !! length l). by rewrite IH, default_last_cons.
Qed.

(** On an array that is not empty the function pairs up the boundaries. *)
Lemma contiguous_regions_boundaries b condition :
  contiguous_regions (b :: condition)
  = reshape_pairs (boundaries_from 0 false (b :: condition)).
Proof.
  unfold contiguous_regions. cbn [boundaries_from xorb].
  rewrite boundaries_from_diff. unfold index.
  cbn [lookup list_lookup mbind result_bind length].
  rewrite Nat.sub_succ, Nat.sub_0_r, lookup_last_cons.
  cbn [mbind result_bind]. f_equal.
  destruct b, (default _ (last condition)); cbn [app];
    rewrite ?app_nil_r; done.
Qed.

(** X22: on an empty array [contiguous_regions] raises [IndexError]; on
    any other array it returns regions such that an index lies in a
    region exactly when the array holds there, every region is within
    the array and not empty, and the regions come in increasing order,
    each starting after the index at which the one before ends. *)
Theorem contiguous_regions_spec condition :
  match condition with
  | [] => contiguous_regions condition = Raise (IndexError 0)
  | _ :: _ =>
      ∃ regions,
        contiguous_regions condition = Ok regions
        ∧ (∀ p, covered regions p ↔ condition !! p = Some true)
        ∧ Forall (λ r, (r.1 < r.2 ≤ length condition)%nat) regions
        ∧ separated 0 regions
  end.
Proof.
  destruct condition as [|b condition]; [done|].
  rewrite contiguous_regions_boundaries.
  destruct (boundaries_from_spec (b :: condition) 0 false)
    as (head & regions & -> & Hpairs & (-> & Hcov & Hsep) & Hbounds).
  exists regions. split; [done|]. split; [|split; [|done]].
  - intros p. rewrite Hcov by lia. by rewrite Nat.sub_0_r.
  - eapply Forall_impl; [done|]. cbn. intros r ?. lia.
Qed.

Lemma separated_not_covered (lo : nat) (regions : list (nat * nat)) p :
  separated lo regions → (p < lo)%nat → ¬ covered regions p.
Proof.
  revert lo. induction regions as [|[s e] regions IH]; intros lo.
  { intros _ _. apply covered_nil. }
  cbn. intros [Hse Hsep] Hp. rewrite covered_cons. intros [?|Hc]; [lia|].
  by apply (IH (S e)); [|lia|].
Qed.

(** Neither the index at which a region ends nor the index before its
    start lies in any region. *)
Lemma separated_maximal (lo : nat) (regions : list (nat * nat)) (s e : nat) :
  separated lo regions → (s, e) ∈ regions →
  ¬ covered regions e ∧ ∀ p, S p = s → ¬ covered regions p.
Proof.
  revert lo. induction regions as [|[s0 e0] regions IH]; intros lo.
  { by intros _ ?%elem_of_nil. }
  cbn. intros [Hse Hsep] [[= -> ->]|Hin]%elem_of_cons.
  - split.
    + rewrite covered_cons. intros [?|Hc]; [lia|].
      apply (separated_not_covered (S e0) regions e0); [done|lia|done].
    + intros p <-. rewrite covered_cons. intros [?|Hc]; [lia|].
      apply (separated_not_covered (S e0) regions p); [done|lia|done].
  - destruct (IH (S e0) Hsep Hin) as [He Hs].
    assert (S e0 ≤ s < e)%nat as Hbound.
    { clear -Hsep Hin. revert Hsep Hin. generalize (S e0).
      induction regions as [|[s1 e1] regions IH']; intros lo'.
      { by intros _ ?%elem_of_nil. }
      cbn. intros [? Hsep] [[= -> ->]|Hin]%elem_of_cons; [done|].
      specialize (IH' (S e1) Hsep Hin). lia. }
    split.
    + rewrite covered_cons. intros [?|?]; [lia|done].
    + intros p Hp. rewrite covered_cons. intros [?|?]; [lia|].
      by apply (Hs p).
Qed.

(** X23: the regions are maximal: the array does not hold at the index
    where a region ends, nor at the index before the one where it
    starts. *)
Theorem contiguous_regions_maximal condition regions (s e : nat) :
  contiguous_regions condition = Ok regions →
  (s, e) ∈ regions →
  condition !! e ≠ Some true
  ∧ ∀ p, S p = s → condition !! p ≠ Some true.
Proof.
  intros Hr Hin. destruct condition as [|b condition]; [done|].
  rewrite contiguous_regions_boundaries in Hr.
  destruct (boundaries_from_spec (b :: condition) 0 false)
    as (head & regions' & Hb & Hpairs & (-> & Hcov & Hsep) & _).
  rewrite Hb in Hr. cbn [app] in Hr. rewrite Hpairs in Hr.
  injection Hr as ->.
  destruct (separated_maximal 0 regions s e Hsep Hin) as [He Hs].
  split.
  - intros Htrue. apply He. apply Hcov; [lia|]. by rewrite Nat.sub_0_r.
  - intros p Hp Htrue. apply (Hs p Hp). apply Hcov; [lia|].
    by rewrite Nat.sub_0_r.
Qed.

Lemma contiguous_regions_maximal_witness :
  [false; true; true; false; true] !! 3%nat ≠ Some true
  ∧ ∀ p, S p = 1%nat → [false; true; true; false; true] !! p ≠ Some true.
Proof.
  apply (contiguous_regions_maximal [false; true; true; false; true]
           [(1, 3); (4, 5)]%nat 1 3).
  - reflexivity.
  - apply list_elem_of_here.
Defined.

End ContiguousRegions.
